(** * The substitution loop of [update_translations.py]

    The script reads one file into [content], walks the dictionary
    [replacements] in insertion order and rebinds [content] to
    [re.sub(pattern, replacement, content)] for every entry, then writes
    [content] back and prints the number of entries.

    This development embeds that loop together with the part of Python's
    [re] module the loop relies on, as CPython 3.7 and later implement
    it: the pattern parser, the backtracking matcher with capture groups,
    the replacement-template parser and the left-to-right scan of
    [re.sub].  Characters are code points below 256.

    The embedded part of the dialect holds every construct the table of
    the script uses.  A pattern or a template that uses a construct which
    is not embedded (character sets, counted repeats, lazy and possessive
    quantifiers, look-around, back-references, named groups, word
    boundaries, numeric escapes) is given no meaning: the parsers answer
    [Outside], which is neither a value nor an error, and nothing is
    stated of a run that meets one. *)

From Stdlib Require Import String Ascii List Arith Lia Bool.
Import ListNotations.
Open Scope list_scope.
Open Scope string_scope.

Set Implicit Arguments.

(** ** Results and errors *)

Inductive pattern_error :=
| NothingToRepeat
| MultipleRepeat
| MissingParen
| UnbalancedParen
| BadEscape (c : ascii)
| BadEscapeEnd.

Inductive template_error :=
| TplBadEscape (c : ascii)
| TplBadEscapeEnd
| TplOctalRange.

(** [re.error] as raised by [re.sub], split by what raised it. *)
Inductive re_error :=
| MalformedPattern (e : pattern_error)
| UnresolvedReference (index : nat)
| BadTemplate (e : template_error).

(** What the embedding says of a computation: the value it returns, the
    error it raises, or [Outside] when it meets a construct that is not
    embedded and the embedding does not say what the code does. *)
Inductive result (A : Type) :=
| Ok (a : A)
| Err (e : re_error)
| Outside.

Arguments Ok {A} a.
Arguments Err {A} e.
Arguments Outside {A}.

Definition bind {A B} (x : result A) (f : A -> result B) : result B :=
  match x with
  | Ok a => f a
  | Err e => Err e
  | Outside => Outside
  end.

Notation "x <- c1 ;; c2" := (bind c1 (fun x => c2))
  (at level 61, c1 at next level, right associativity).
Notation "' p <- c1 ;; c2" := (bind c1 (fun p => c2))
  (at level 61, p pattern, c1 at next level, right associativity).

(** ** Characters *)

Definition code (c : ascii) : nat := nat_of_ascii c.

Definition between (lo hi n : nat) : bool :=
  Nat.leb lo n && Nat.leb n hi.

Definition is_digit (c : ascii) : bool := between 48 57 (code c).
Definition is_octdigit (c : ascii) : bool := between 48 55 (code c).
Definition is_ascii_letter (c : ascii) : bool :=
  between 65 90 (code c) || between 97 122 (code c).

(** [str.isspace] on code points below 256. *)
Definition is_space (c : ascii) : bool :=
  let n := code c in
  between 9 13 n || between 28 32 n || Nat.eqb n 133 || Nat.eqb n 160.

(** [str.isalnum] or underscore on code points below 256. *)
Definition is_word (c : ascii) : bool :=
  let n := code c in
  between 48 57 n || between 65 90 n || Nat.eqb n 95 || between 97 122 n
  || Nat.eqb n 170 || between 178 179 n || Nat.eqb n 181 || between 185 186 n
  || between 188 190 n || between 192 214 n || between 216 246 n
  || between 248 255 n.

Definition newline : ascii := ascii_of_nat 10.
Definition backslash : ascii := ascii_of_nat 92.
Definition dquote : ascii := ascii_of_nat 34.

Definition digit_val (c : ascii) : nat := code c - 48.

(** ** Strings *)

Fixpoint drop (n : nat) (s : string) : string :=
  match n, s with
  | S n', String _ s' => drop n' s'
  | _, _ => s
  end.

Fixpoint take (n : nat) (s : string) : string :=
  match n, s with
  | S n', String a s' => String a (take n' s')
  | _, _ => EmptyString
  end.

Fixpoint starts_with (p s : string) : bool :=
  match p, s with
  | EmptyString, _ => true
  | String a p', String b s' => Ascii.eqb a b && starts_with p' s'
  | String _ _, EmptyString => false
  end.

(** ** Regular expressions *)

Inductive category := CatDigit | CatSpace | CatWord.

Definition in_category (k : category) (c : ascii) : bool :=
  match k with
  | CatDigit => is_digit c
  | CatSpace => is_space c
  | CatWord => is_word c
  end.

Inductive regex :=
| Eps
| Lit (c : ascii)
| Any
| In (negate : bool) (k : category)
| Bol
| Eol
| Seq (r1 r2 : regex)
| Alt (r1 r2 : regex)
| Star (r : regex)
| Plus (r : regex)
| Opt (r : regex)
| Group (n : nat) (r : regex).

Fixpoint mkseq (l : list regex) : regex :=
  match l with
  | [] => Eps
  | r :: l' => Seq r (mkseq l')
  end.

Fixpoint mkalt (r : regex) (l : list regex) : regex :=
  match l with
  | [] => r
  | r' :: l' => Alt r (mkalt r' l')
  end.

(** ** The tokenizer shared by patterns and templates

    A token is one character or a backslash with the character after it.
    A backslash that ends the string is an error, raised when that
    position becomes the look-ahead. *)

Inductive token :=
| TChar (c : ascii)
| TEsc (c : ascii)
| TBad.

Fixpoint tokenize (s : string) : list token :=
  match s with
  | EmptyString => []
  | String c s' =>
      if Ascii.eqb c backslash then
        match s' with
        | EmptyString => [TBad]
        | String e s'' => TEsc e :: tokenize s''
        end
      else TChar c :: tokenize s'
  end.

Definition next_bad (ts : list token) : bool :=
  match ts with
  | TBad :: _ => true
  | _ => false
  end.

(** ** The pattern parser *)

Fixpoint skip_digits (ts : list token) : list token :=
  match ts with
  | TChar c :: ts' => if is_digit c then skip_digits ts' else ts
  | _ => ts
  end.

(** What follows an opening brace makes it a counted repeat. *)
Definition brace_repeat (ts : list token) : bool :=
  match ts with
  | TChar "}" :: _ => false
  | _ =>
      let ts1 := skip_digits ts in
      let ts2 := match ts1 with
                 | TChar "," :: r => skip_digits r
                 | _ => ts1
                 end in
      match ts2 with
      | TChar "}" :: _ => true
      | _ => false
      end
  end.

Definition pattern_escape (c : ascii) : result regex :=
  if Ascii.eqb c "d" then Ok (In false CatDigit)
  else if Ascii.eqb c "D" then Ok (In true CatDigit)
  else if Ascii.eqb c "s" then Ok (In false CatSpace)
  else if Ascii.eqb c "S" then Ok (In true CatSpace)
  else if Ascii.eqb c "w" then Ok (In false CatWord)
  else if Ascii.eqb c "W" then Ok (In true CatWord)
  else if Ascii.eqb c "a" then Ok (Lit (ascii_of_nat 7))
  else if Ascii.eqb c "f" then Ok (Lit (ascii_of_nat 12))
  else if Ascii.eqb c "n" then Ok (Lit (ascii_of_nat 10))
  else if Ascii.eqb c "r" then Ok (Lit (ascii_of_nat 13))
  else if Ascii.eqb c "t" then Ok (Lit (ascii_of_nat 9))
  else if Ascii.eqb c "v" then Ok (Lit (ascii_of_nat 11))
  else if Ascii.eqb c "A" || Ascii.eqb c "b" || Ascii.eqb c "B"
          || Ascii.eqb c "Z" || Ascii.eqb c "z" || Ascii.eqb c "x"
          || Ascii.eqb c "u" || Ascii.eqb c "U" || Ascii.eqb c "N"
          || is_digit c
       then Outside
  else if is_ascii_letter c then Err (MalformedPattern (BadEscape c))
  else Ok (Lit c).

Record frame := mkframe {
  f_group : nat;        (* number of the group being parsed *)
  f_alts : list regex;  (* finished alternatives, last first *)
  f_items : list regex  (* items of the current alternative, last first *)
}.

Definition push_item (r : regex) (f : frame) : frame :=
  mkframe (f_group f) (f_alts f) (r :: f_items f).

Definition close_frame (f : frame) : regex :=
  match rev (mkseq (rev (f_items f)) :: f_alts f) with
  | [] => Eps
  | r :: l => mkalt r l
  end.

Inductive quantifier := QStar | QPlus | QOpt.

Definition quantify (q : quantifier) (r : regex) : regex :=
  match q with
  | QStar => Star r
  | QPlus => Plus r
  | QOpt => Opt r
  end.

Definition repeat_item (q : quantifier) (f : frame) (rest : list token)
  : result frame :=
  match f_items f with
  | [] => Err (MalformedPattern NothingToRepeat)
  | Bol :: _ | Eol :: _ => Err (MalformedPattern NothingToRepeat)
  | Star _ :: _ | Plus _ :: _ | Opt _ :: _ =>
      Err (MalformedPattern MultipleRepeat)
  | r :: items =>
      match rest with
      | TChar "?" :: _ | TChar "+" :: _ => Outside
      | _ => Ok (mkframe (f_group f) (f_alts f) (quantify q r :: items))
      end
  end.

(** A closing parenthesis met while no group is open ends the parse
    before it is taken, so before the look-ahead moves past it. *)
Definition unbalanced (t : token) (stack : list frame) : bool :=
  match t, stack with
  | TChar c, [] => Ascii.eqb c ")"
  | _, _ => false
  end.

(** The parser takes the tokens in turn.  Taking a token moves the
    look-ahead, which raises the error of a backslash at the end.  A
    construct that is not embedded ends the parse with [Outside]. *)
Fixpoint parse_loop (ts : list token) (cur : frame) (stack : list frame)
  (groups : nat) : result (regex * nat) :=
  match ts with
  | [] =>
      match stack with
      | [] => Ok (close_frame cur, groups)
      | _ :: _ => Err (MalformedPattern MissingParen)
      end
  | t :: ts' =>
      if unbalanced t stack then Err (MalformedPattern UnbalancedParen) else
      if next_bad ts' then Err (MalformedPattern BadEscapeEnd) else
      match t with
      | TBad => Err (MalformedPattern BadEscapeEnd)
      | TEsc c =>
          r <- pattern_escape c ;;
          parse_loop ts' (push_item r cur) stack groups
      | TChar c =>
          if Ascii.eqb c "." then
            parse_loop ts' (push_item Any cur) stack groups
          else if Ascii.eqb c "^" then
            parse_loop ts' (push_item Bol cur) stack groups
          else if Ascii.eqb c "$" then
            parse_loop ts' (push_item Eol cur) stack groups
          else if Ascii.eqb c "|" then
            parse_loop ts'
              (mkframe (f_group cur)
                       (mkseq (rev (f_items cur)) :: f_alts cur) [])
              stack groups
          else if Ascii.eqb c "(" then
            match ts' with
            | TChar "?" :: _ => Outside
            | _ => parse_loop ts' (mkframe (S groups) [] [])
                              (cur :: stack) (S groups)
            end
          else if Ascii.eqb c ")" then
            match stack with
            | [] => Err (MalformedPattern UnbalancedParen)
            | parent :: stack' =>
                parse_loop ts'
                  (push_item (Group (f_group cur) (close_frame cur)) parent)
                  stack' groups
            end
          else if Ascii.eqb c "*" then
            f <- repeat_item QStar cur ts' ;;
            parse_loop ts' f stack groups
          else if Ascii.eqb c "+" then
            f <- repeat_item QPlus cur ts' ;;
            parse_loop ts' f stack groups
          else if Ascii.eqb c "?" then
            f <- repeat_item QOpt cur ts' ;;
            parse_loop ts' f stack groups
          else if Ascii.eqb c "[" then Outside
          else if Ascii.eqb c "{" then
            if brace_repeat ts' then Outside
            else parse_loop ts' (push_item (Lit c) cur) stack groups
          else parse_loop ts' (push_item (Lit c) cur) stack groups
      end
  end.

(** [re.compile]: the parsed pattern and its number of groups. *)
Definition compile (pattern : string) : result (regex * nat) :=
  parse_loop (tokenize pattern) (mkframe 0 [] []) [] 0.

(** ** The matcher

    A backtracking matcher in continuation-passing style.  [pos] is the
    offset of [s] in the whole text, [caps] the text captured by each
    group so far; alternatives are tried in order and repeats are greedy.
    A repeat stops iterating once an iteration has consumed nothing.
    The fuel of a repeat is one more than the length of the text left,
    which no run of iterations can use up ([star_fuel] below). *)

Definition captures := list (nat * string).

Fixpoint get_group (i : nat) (caps : captures) : option string :=
  match caps with
  | [] => None
  | (j, v) :: caps' => if Nat.eqb i j then Some v else get_group i caps'
  end.

Definition cont := nat -> string -> captures -> option (nat * captures).

Definition match_char (p : ascii -> bool) (pos : nat) (s : string)
  (caps : captures) (k : cont) : option (nat * captures) :=
  match s with
  | String b s' => if p b then k (S pos) s' caps else None
  | EmptyString => None
  end.

Definition or_else {A} (x : option A) (y : option A) : option A :=
  match x with
  | Some _ => x
  | None => y
  end.

Section Repeat.
(** One more iteration of the body, then the tail. *)
Variable body : nat -> string -> captures -> cont -> option (nat * captures).
Variable k : cont.

Fixpoint repeat_loop (fuel : nat) (pos : nat) (s : string)
  (caps : captures) : option (nat * captures) :=
  match fuel with
  | 0 => k pos s caps
  | S fuel' =>
      or_else
        (body pos s caps
           (fun pos' s' caps' =>
              if Nat.eqb pos' pos then k pos' s' caps'
              else repeat_loop fuel' pos' s' caps'))
        (k pos s caps)
  end.
End Repeat.

Fixpoint run (r : regex) (pos : nat) (s : string) (caps : captures)
  (k : cont) {struct r} : option (nat * captures) :=
  match r with
  | Eps => k pos s caps
  | Lit a => match_char (Ascii.eqb a) pos s caps k
  | Any => match_char (fun b => negb (Ascii.eqb b newline)) pos s caps k
  | In negate cat =>
      match_char (fun b => xorb negate (in_category cat b)) pos s caps k
  | Bol => if Nat.eqb pos 0 then k pos s caps else None
  | Eol =>
      match s with
      | EmptyString => k pos s caps
      | String b EmptyString =>
          if Ascii.eqb b newline then k pos s caps else None
      | _ => None
      end
  | Seq r1 r2 =>
      run r1 pos s caps (fun pos' s' caps' => run r2 pos' s' caps' k)
  | Alt r1 r2 => or_else (run r1 pos s caps k) (run r2 pos s caps k)
  | Star r1 => repeat_loop (run r1) k (S (String.length s)) pos s caps
  | Plus r1 =>
      run r1 pos s caps
        (fun pos' s' caps' =>
           repeat_loop (run r1) k (S (String.length s')) pos' s' caps')
  | Opt r1 => or_else (run r1 pos s caps k) (k pos s caps)
  | Group n r1 =>
      run r1 pos s caps
        (fun pos' s' caps' => k pos' s' ((n, take (pos' - pos) s) :: caps'))
  end.

(** One match attempt at [pos]; with [must_advance] an empty match is
    refused and the matcher backtracks for a longer one. *)
Definition match_at (r : regex) (pos : nat) (s : string)
  (must_advance : bool) : option (nat * captures) :=
  run r pos s []
    (fun pos' _ caps' =>
       if must_advance && Nat.eqb pos' pos then None else Some (pos', caps')).

(** [re.search]: the leftmost position at which an attempt succeeds. *)
Fixpoint search (r : regex) (pos : nat) (s : string) (must_advance : bool)
  : option (nat * nat * captures) :=
  match match_at r pos s must_advance with
  | Some (e, caps) => Some (pos, e, caps)
  | None =>
      match s with
      | EmptyString => None
      | String _ s' => search r (S pos) s' false
      end
  end.

(** ** Replacement templates *)

Inductive titem :=
| TLit (c : ascii)
| TGroup (index : nat).

Definition template_escape (c : ascii) : option ascii :=
  if Ascii.eqb c "a" then Some (ascii_of_nat 7)
  else if Ascii.eqb c "b" then Some (ascii_of_nat 8)
  else if Ascii.eqb c "f" then Some (ascii_of_nat 12)
  else if Ascii.eqb c "n" then Some (ascii_of_nat 10)
  else if Ascii.eqb c "r" then Some (ascii_of_nat 13)
  else if Ascii.eqb c "t" then Some (ascii_of_nat 9)
  else if Ascii.eqb c "v" then Some (ascii_of_nat 11)
  else if Ascii.eqb c backslash then Some backslash
  else None.

Definition add_group (index groups : nat) : result titem :=
  if Nat.ltb groups index then Err (UnresolvedReference index)
  else Ok (TGroup index).

(** A backslash followed by a digit: an octal character code or a group
    reference, and the number of further tokens it takes up. *)
Definition template_digits (c : ascii) (ts : list token) (groups : nat)
  : result (titem * nat) :=
  if Ascii.eqb c "0" then
    match ts with
    | TChar d1 :: ts1 =>
        if is_octdigit d1 then
          if next_bad ts1 then Err (BadTemplate TplBadEscapeEnd) else
          match ts1 with
          | TChar d2 :: ts2 =>
              if is_octdigit d2 then
                if next_bad ts2 then Err (BadTemplate TplBadEscapeEnd)
                else Ok (TLit (ascii_of_nat
                                 ((8 * digit_val d1 + digit_val d2) mod 256)),
                         2)
              else Ok (TLit (ascii_of_nat (digit_val d1)), 1)
          | _ => Ok (TLit (ascii_of_nat (digit_val d1)), 1)
          end
        else Ok (TLit (ascii_of_nat 0), 0)
    | _ => Ok (TLit (ascii_of_nat 0), 0)
    end
  else
    match ts with
    | TChar d1 :: ts1 =>
        if is_digit d1 then
          if next_bad ts1 then Err (BadTemplate TplBadEscapeEnd) else
          let two := 10 * digit_val c + digit_val d1 in
          match ts1 with
          | TChar d2 :: ts2 =>
              if is_octdigit c && is_octdigit d1 && is_octdigit d2 then
                if next_bad ts2 then Err (BadTemplate TplBadEscapeEnd) else
                let v := 64 * digit_val c + 8 * digit_val d1 + digit_val d2 in
                if Nat.ltb 255 v then Err (BadTemplate TplOctalRange)
                else Ok (TLit (ascii_of_nat v), 2)
              else (i <- add_group two groups ;; Ok (i, 1))
          | _ => i <- add_group two groups ;; Ok (i, 1)
          end
        else i <- add_group (digit_val c) groups ;; Ok (i, 0)
    | _ => i <- add_group (digit_val c) groups ;; Ok (i, 0)
    end.

(** [skip] counts the tokens already taken up by a preceding escape. *)
Fixpoint template_loop (skip : nat) (ts : list token) (groups : nat)
  : result (list titem) :=
  match ts with
  | [] => Ok []
  | t :: ts' =>
      match skip with
      | S skip' => template_loop skip' ts' groups
      | 0 =>
          if next_bad ts' then Err (BadTemplate TplBadEscapeEnd) else
          match t with
          | TBad => Err (BadTemplate TplBadEscapeEnd)
          | TChar c =>
              l <- template_loop 0 ts' groups ;; Ok (TLit c :: l)
          | TEsc c =>
              if Ascii.eqb c "g" then Outside
              else if is_digit c then
                '(i, used) <- template_digits c ts' groups ;;
                l <- template_loop used ts' groups ;; Ok (i :: l)
              else
                match template_escape c with
                | Some a =>
                    l <- template_loop 0 ts' groups ;; Ok (TLit a :: l)
                | None =>
                    if is_ascii_letter c
                    then Err (BadTemplate (TplBadEscape c))
                    else
                      l <- template_loop 0 ts' groups ;;
                      Ok (TLit backslash :: TLit c :: l)
                end
          end
      end
  end.

(** The template compiled against a pattern with [groups] groups. *)
Definition parse_template (replacement : string) (groups : nat)
  : result (list titem) :=
  template_loop 0 (tokenize replacement) groups.

Fixpoint expand (tpl : list titem) (caps : captures) : string :=
  match tpl with
  | [] => EmptyString
  | TLit c :: tpl' => String c (expand tpl' caps)
  | TGroup i :: tpl' =>
      match get_group i caps with
      | Some v => v ++ expand tpl' caps
      | None => expand tpl' caps
      end
  end.

(** ** [re.sub]

    The scan searches from the end of the previous match; after an empty
    match the next attempt at the same place must advance.  Text between
    matches is copied.  The result carries the number of replacements
    made, which [re.subn] returns and [re.sub] drops.  The fuel bounds
    the number of steps; [re_subn] gives more than the scan can use
    ([scan_fuel] below). *)

Fixpoint scan (fuel : nat) (r : regex) (tpl : list titem) (pos : nat)
  (s : string) (must_advance : bool) : string * nat :=
  match fuel with
  | 0 => (s, 0)
  | S fuel' =>
      match match_at r pos s must_advance with
      | Some (e, caps) =>
          let '(out, n) :=
            scan fuel' r tpl e (drop (e - pos) s) (Nat.eqb e pos) in
          (expand tpl caps ++ out, S n)
      | None =>
          match s with
          | EmptyString => (EmptyString, 0)
          | String a s' =>
              let '(out, n) := scan fuel' r tpl (S pos) s' false in
              (String a out, n)
          end
      end
  end.

(** Every step of the scan lowers this measure of what is left to do. *)
Definition scan_measure (s : string) (must_advance : bool) : nat :=
  2 * String.length s + (if must_advance then 0 else 1).

Definition re_subn (pattern repl text : string) : result (string * nat) :=
  '(r, groups) <- compile pattern ;;
  tpl <- parse_template repl groups ;;
  Ok (scan (S (scan_measure text false)) r tpl 0 text false).

Definition re_sub (pattern repl text : string) : result string :=
  '(out, _) <- re_subn pattern repl text ;; Ok out.

(** ** The rule set

    A dictionary display keeps the position of the first occurrence of a
    key and the value of its last one; [items] yields the entries in that
    order. *)

Definition rule := (string * string)%type.

Fixpoint dict_set (k v : string) (d : list rule) : list rule :=
  match d with
  | [] => [(k, v)]
  | (k', v') :: d' =>
      if String.eqb k k' then (k, v) :: d' else (k', v') :: dict_set k v d'
  end.

Definition dict_display (entries : list rule) : list rule :=
  fold_left (fun d e => dict_set (fst e) (snd e) d) entries [].

(** The dictionary display of the script, entry by entry.  The strings
    are raw string literals: a backslash in the source is a backslash in
    the value.  [q] stands for the double quote character. *)

Definition q : string := String dquote EmptyString.

Definition replacements_display : list rule := [
    ("<h3 className=" ++ q ++ "text-lg font-semibold mb-2" ++ q ++ ">Property Details</h3>",
     "<h3 className=" ++ q ++ "text-lg font-semibold mb-2" ++ q ++ ">{t(\'propertyForm.propertyDetails\')}</h3>");

    ("<p className=" ++ q ++ "text-sm text-muted-foreground mb-4" ++ q ++ ">Size, capacity, and room specifications</p>",
     "<p className=" ++ q ++ "text-sm text-muted-foreground mb-4" ++ q ++ ">{t(\'propertyForm.propertyDetailsDesc\')}</p>");

    ("<FormLabel>Size \(sq ft\)</FormLabel>",
     "<FormLabel>{t(\'propertyForm.sizeSqft\')}</FormLabel>");

    ("<FormLabel>Capacity</FormLabel>",
     "<FormLabel>{t(\'propertyForm.capacity\')}</FormLabel>");

    ("<FormLabel>Max Capacity</FormLabel>",
     "<FormLabel>{t(\'propertyForm.maxCapacity\')}</FormLabel>");

    ("<FormLabel>Bedrooms</FormLabel>",
     "<FormLabel>{t(\'propertyForm.bedrooms\')}</FormLabel>");

    ("<FormLabel>Bathrooms</FormLabel>",
     "<FormLabel>{t(\'propertyForm.bathrooms\')}</FormLabel>");

    ("<FormLabel>Half Baths</FormLabel>",
     "<FormLabel>{t(\'propertyForm.halfBaths\')}</FormLabel>");

    ("<FormLabel>WCs</FormLabel>",
     "<FormLabel>{t(\'propertyForm.wcs\')}</FormLabel>");

    ("<FormLabel>Kitchens</FormLabel>",
     "<FormLabel>{t(\'propertyForm.kitchens\')}</FormLabel>");

    ("<FormLabel>Living Rooms</FormLabel>",
     "<FormLabel>{t(\'propertyForm.livingRooms\')}</FormLabel>");

    ("<h4 className=" ++ q ++ "text-md font-semibold mb-2" ++ q ++ ">Property Units</h4>",
     "<h4 className=" ++ q ++ "text-md font-semibold mb-2" ++ q ++ ">{t(\'propertyForm.propertyUnits\')}</h4>");

    ("<p className=" ++ q ++ "text-sm text-muted-foreground mb-4" ++ q ++ ">Manage individual units within this property \(optional\)</p>",
     "<p className=" ++ q ++ "text-sm text-muted-foreground mb-4" ++ q ++ ">{t(\'propertyForm.propertyUnitsDesc\')}</p>");

    ("<p className=" ++ q ++ "text-sm font-medium" ++ q ++ ">\{units\.length\} \{units\.length === 1 \? \'unit\' : \'units\'\} configured</p>",
     "<p className=" ++ q ++ "text-sm font-medium" ++ q ++ ">{t(\'propertyForm.unitsConfigured\', { count: units.length })}</p>");

    ("Add Unit\s*</Button>",
     "{t(\'propertyForm.addUnit\')}\n                      </Button>");

    ("placeholder=" ++ q ++ "Property name" ++ q,
     "placeholder={t(\'propertyForm.propertyNamePlaceholderUnit\')}");

    ("placeholder=" ++ q ++ "License number" ++ q,
     "placeholder={t(\'propertyForm.licenseNumberPlaceholder\')}");

    ("placeholder=" ++ q ++ "Folio" ++ q,
     "placeholder={t(\'propertyForm.folioPlaceholder\')}");

    ("<h3 className=" ++ q ++ "text-lg font-semibold mb-2" ++ q ++ ">Communication Details</h3>",
     "<h3 className=" ++ q ++ "text-lg font-semibold mb-2" ++ q ++ ">{t(\'propertyForm.communicationDetails\')}</h3>");

    ("<p className=" ++ q ++ "text-sm text-muted-foreground mb-4" ++ q ++ ">Contact information and internet access details for this property</p>",
     "<p className=" ++ q ++ "text-sm text-muted-foreground mb-4" ++ q ++ ">{t(\'propertyForm.communicationDetailsDesc\')}</p>");

    ("<span>Contact Information</span>",
     "<span>{t(\'propertyForm.contactInformation\')}</span>");

    ("<label className=" ++ q ++ "text-sm font-medium text-gray-700" ++ q ++ ">Phone Number</label>",
     "<label className=" ++ q ++ "text-sm font-medium text-gray-700" ++ q ++ ">{t(\'propertyForm.phoneNumber\')}</label>");

    ("placeholder=" ++ q ++ "\+1 \(555\) 123-4567" ++ q,
     "placeholder={t(\'propertyForm.phoneNumberPlaceholder\')}");

    ("<label className=" ++ q ++ "text-sm font-medium text-gray-700" ++ q ++ ">WiFi Network Name</label>",
     "<label className=" ++ q ++ "text-sm font-medium text-gray-700" ++ q ++ ">{t(\'propertyForm.wifiNetworkName\')}</label>");

    ("placeholder=" ++ q ++ "MyPropertyWiFi" ++ q,
     "placeholder={t(\'propertyForm.wifiNamePlaceholder\')}");

    ("<label className=" ++ q ++ "text-sm font-medium text-gray-700" ++ q ++ ">WiFi Password</label>",
     "<label className=" ++ q ++ "text-sm font-medium text-gray-700" ++ q ++ ">{t(\'propertyForm.wifiPassword\')}</label>");

    ("placeholder=" ++ q ++ "Enter WiFi password" ++ q,
     "placeholder={t(\'propertyForm.wifiPasswordPlaceholder\')}");

    ("<h3 className=" ++ q ++ "text-lg font-semibold mb-2" ++ q ++ ">Access Information</h3>",
     "<h3 className=" ++ q ++ "text-lg font-semibold mb-2" ++ q ++ ">{t(\'propertyForm.accessInformation\')}</h3>");

    ("<p className=" ++ q ++ "text-sm text-muted-foreground mb-4" ++ q ++ ">Security codes and entry information for property access</p>",
     "<p className=" ++ q ++ "text-sm text-muted-foreground mb-4" ++ q ++ ">{t(\'propertyForm.accessInformationDesc\')}</p>");

    ("<span>Security Access</span>",
     "<span>{t(\'propertyForm.securityAccess\')}</span>");

    ("<label className=" ++ q ++ "text-sm font-medium text-gray-700" ++ q ++ ">Gate Code</label>",
     "<label className=" ++ q ++ "text-sm font-medium text-gray-700" ++ q ++ ">{t(\'propertyForm.gateCode\')}</label>");

    ("placeholder=" ++ q ++ "1234#" ++ q,
     "placeholder={t(\'propertyForm.gateCodePlaceholder\')}");

    ("<label className=" ++ q ++ "text-sm font-medium text-gray-700" ++ q ++ ">Door Lock Password</label>",
     "<label className=" ++ q ++ "text-sm font-medium text-gray-700" ++ q ++ ">{t(\'propertyForm.doorLockPassword\')}</label>");

    ("placeholder=" ++ q ++ "Enter lock code" ++ q,
     "placeholder={t(\'propertyForm.doorLockPasswordPlaceholder\')}");

    ("<label className=" ++ q ++ "text-sm font-medium text-gray-700" ++ q ++ ">Alarm Passcode</label>",
     "<label className=" ++ q ++ "text-sm font-medium text-gray-700" ++ q ++ ">{t(\'propertyForm.alarmPasscode\')}</label>");

    ("placeholder=" ++ q ++ "Security alarm code" ++ q,
     "placeholder={t(\'propertyForm.alarmPasscodePlaceholder\')}");

    ("<span>Additional Property Features</span>",
     "<span>{t(\'propertyForm.additionalPropertyFeatures\')}</span>");

    ("<label className=" ++ q ++ "text-sm font-medium text-gray-700" ++ q ++ ">Storage Number</label>",
     "<label className=" ++ q ++ "text-sm font-medium text-gray-700" ++ q ++ ">{t(\'propertyForm.storageNumber\')}</label>");

    ("placeholder=" ++ q ++ "Storage unit #" ++ q,
     "placeholder={t(\'propertyForm.storageNumberPlaceholder\')}");

    ("<label className=" ++ q ++ "text-sm font-medium text-gray-700" ++ q ++ ">Storage Code</label>",
     "<label className=" ++ q ++ "text-sm font-medium text-gray-700" ++ q ++ ">{t(\'propertyForm.storageCode\')}</label>");

    ("placeholder=" ++ q ++ "Access code" ++ q,
     "placeholder={t(\'propertyForm.storageCodePlaceholder\')}");

    ("<label className=" ++ q ++ "text-sm font-medium text-gray-700" ++ q ++ ">Garage Number</label>",
     "<label className=" ++ q ++ "text-sm font-medium text-gray-700" ++ q ++ ">{t(\'propertyForm.garageNumber\')}</label>");

    ("placeholder=" ++ q ++ "Parking spot #" ++ q,
     "placeholder={t(\'propertyForm.garageNumberPlaceholder\')}");

    ("<label className=" ++ q ++ "text-sm font-medium text-gray-700" ++ q ++ ">Front Desk</label>",
     "<label className=" ++ q ++ "text-sm font-medium text-gray-700" ++ q ++ ">{t(\'propertyForm.frontDesk\')}</label>");

    ("placeholder=" ++ q ++ "Front desk info" ++ q,
     "placeholder={t(\'propertyForm.frontDeskPlaceholder\')}");

    ("<label className=" ++ q ++ "text-sm font-medium text-gray-700" ++ q ++ ">Mailing Box</label>",
     "<label className=" ++ q ++ "text-sm font-medium text-gray-700" ++ q ++ ">{t(\'propertyForm.mailingBox\')}</label>");

    ("placeholder=" ++ q ++ "Mailbox number" ++ q,
     "placeholder={t(\'propertyForm.mailingBoxPlaceholder\')}");

    ("<label className=" ++ q ++ "text-sm font-medium text-gray-700" ++ q ++ ">Pool Access Code</label>",
     "<label className=" ++ q ++ "text-sm font-medium text-gray-700" ++ q ++ ">{t(\'propertyForm.poolAccessCode\')}</label>");

    ("placeholder=" ++ q ++ "Pool code" ++ q,
     "placeholder={t(\'propertyForm.poolAccessCodePlaceholder\')}");

    ("<h4 className=" ++ q ++ "text-lg font-semibold mb-2" ++ q ++ ">Amenities</h4>",
     "<h4 className=" ++ q ++ "text-lg font-semibold mb-2" ++ q ++ ">{t(\'propertyForm.amenities\')}</h4>");

    ("<p className=" ++ q ++ "text-sm text-muted-foreground mb-4" ++ q ++ ">Select all amenities available at this property</p>",
     "<p className=" ++ q ++ "text-sm text-muted-foreground mb-4" ++ q ++ ">{t(\'propertyForm.amenitiesDesc\')}</p>");

    ("<h4 className=" ++ q ++ "text-lg font-semibold mb-2" ++ q ++ ">Rules</h4>",
     "<h4 className=" ++ q ++ "text-lg font-semibold mb-2" ++ q ++ ">{t(\'propertyForm.rules\')}</h4>");

    ("<p className=" ++ q ++ "text-sm text-muted-foreground mb-4" ++ q ++ ">Select all rules that apply to this property</p>",
     "<p className=" ++ q ++ "text-sm text-muted-foreground mb-4" ++ q ++ ">{t(\'propertyForm.rulesDesc\')}</p>");

    ("<h3 className=" ++ q ++ "text-lg font-semibold mb-2" ++ q ++ ">Property Profile Image</h3>",
     "<h3 className=" ++ q ++ "text-lg font-semibold mb-2" ++ q ++ ">{t(\'propertyForm.propertyProfileImage\')}</h3>");

    ("<p className=" ++ q ++ "text-sm text-muted-foreground mb-4" ++ q ++ ">Upload one profile image to represent this property</p>",
     "<p className=" ++ q ++ "text-sm text-muted-foreground mb-4" ++ q ++ ">{t(\'propertyForm.propertyProfileImageDesc\')}</p>");

    ("<label className=" ++ q ++ "text-sm font-medium" ++ q ++ ">Upload Profile Image</label>",
     "<label className=" ++ q ++ "text-sm font-medium" ++ q ++ ">{t(\'propertyForm.uploadProfileImage\')}</label>");

    ("Remove\s*</Button>",
     "{t(\'propertyForm.remove\')}\n                          </Button>");

    ("<label className=" ++ q ++ "text-sm font-medium mb-1 block" ++ q ++ ">Image Title \(Optional\)</label>",
     "<label className=" ++ q ++ "text-sm font-medium mb-1 block" ++ q ++ ">{t(\'propertyForm.imageTitleOptional\')}</label>");

    ("placeholder=" ++ q ++ "Enter image title or description" ++ q,
     "placeholder={t(\'propertyForm.imageTitlePlaceholder\')}")
  ].

Definition replacements : list rule := dict_display replacements_display.

(** ** The loop

    [for pattern, replacement in replacements.items():
       content = re.sub(pattern, replacement, content)] *)

Fixpoint apply (items : list rule) (content : string) : result string :=
  match items with
  | [] => Ok content
  | (pattern, replacement) :: rest =>
      content' <- re_sub pattern replacement content ;;
      apply rest content'
  end.

(** The same loop with [re.subn] in place of [re.sub]: [re.sub] is
    [re.subn] with the count dropped, and this variant keeps the number
    of replacements each entry made, in listed order. *)
Fixpoint apply_counting (items : list rule) (content : string)
  : result (string * list nat) :=
  match items with
  | [] => Ok (content, [])
  | (pattern, replacement) :: rest =>
      '(content', n) <- re_subn pattern replacement content ;;
      '(final, counts) <- apply_counting rest content' ;;
      Ok (final, n :: counts)
  end.

(** ** The script

    What a run leaves behind: the file, and the number printed in the
    closing message when the loop went through.  An exception raised in
    the loop ends the script before the file is opened for writing.
    There is no outcome to give when the loop is outside the embedding. *)

Record outcome := mkoutcome {
  file_after : string;
  printed : option nat;
  raised : option re_error
}.

Definition script (replacements : list rule) (file_before : string)
  : option outcome :=
  match apply replacements file_before with
  | Ok content =>
      Some (mkoutcome content (Some (List.length replacements)) None)
  | Err e => Some (mkoutcome file_before None (Some e))
  | Outside => None
  end.

(** ** The file on disk

    The script opens the file in text mode.  Read that way, each of the
    line endings carriage return, line feed and carriage return followed
    by line feed comes in as one line feed; written that way, each line
    feed goes out as [os.linesep], a line feed on POSIX and a carriage
    return followed by a line feed on Windows.  [raw] is the file as
    decoded, before line endings are translated. *)

Definition carriage_return : ascii := ascii_of_nat 13.

Fixpoint read_text (raw : string) : string :=
  match raw with
  | EmptyString => EmptyString
  | String c rest =>
      if Ascii.eqb c carriage_return then
        String newline
          match rest with
          | String d rest' =>
              if Ascii.eqb d newline then read_text rest' else read_text rest
          | EmptyString => EmptyString
          end
      else String c (read_text rest)
  end.

Fixpoint write_text (linesep : string) (text : string) : string :=
  match text with
  | EmptyString => EmptyString
  | String c rest =>
      if Ascii.eqb c newline then linesep ++ write_text linesep rest
      else String c (write_text linesep rest)
  end.

Definition posix_linesep : string := String newline EmptyString.

Definition windows_linesep : string :=
  String carriage_return (String newline EmptyString).

(** The script from file to file. *)
Definition script_on_disk (linesep : string) (replacements : list rule)
  (raw : string) : option outcome :=
  match apply replacements (read_text raw) with
  | Ok content =>
      Some (mkoutcome (write_text linesep content)
                      (Some (List.length replacements)) None)
  | Err e => Some (mkoutcome raw None (Some e))
  | Outside => None
  end.

(** * Vocabulary of the statements *)

(** ** States of the matcher *)

(** [(pos', s')] is reached from [(pos, s)] by consuming a prefix of
    [s]. *)
Definition advanced (pos : nat) (s : string) (pos' : nat) (s' : string)
  : Prop :=
  exists pre, s = pre ++ s' /\ pos' = pos + String.length pre.

(** The continuation [k] gives [x] at some state reached from
    [(pos, s)]. *)
Definition reaches (k : cont) (pos : nat) (s : string)
  (x : nat * captures) : Prop :=
  exists pos' s' caps', advanced pos s pos' s' /\ k pos' s' caps' = Some x.

(** Two continuations agree on every state reached from [(pos, s)]. *)
Definition agree_from (pos : nat) (s : string) (k1 k2 : cont) : Prop :=
  forall pos' s' caps', advanced pos s pos' s' ->
    k1 pos' s' caps' = k2 pos' s' caps'.

(** ** Checking a rule *)

(** What [re.sub] does with a rule before it looks at the text: it
    compiles the pattern, then the template against the pattern. *)
Definition check_rule (r : rule) : result (regex * list titem) :=
  '(rx, groups) <- compile (fst r) ;;
  tpl <- parse_template (snd r) groups ;;
  Ok (rx, tpl).

(** Why a rule gives no text: the error it raises, or that it is
    outside the embedding. *)
Inductive fault :=
| Raised (e : re_error)
| NotEmbedded.

(** What is wrong with a rule, whatever the text. *)
Definition rule_error (r : rule) : option fault :=
  match check_rule r with
  | Ok _ => None
  | Err e => Some (Raised e)
  | Outside => Some NotEmbedded
  end.

(** What is wrong with the first rule, in listed order, that is not
    checked without fault. *)
Fixpoint first_error (items : list rule) : option fault :=
  match items with
  | [] => None
  | r :: rest =>
      match rule_error r with
      | Some f => Some f
      | None => first_error rest
      end
  end.

(** The errors the pattern compiler raises. *)
Definition pattern_failure (e : re_error) : Prop :=
  exists pe, e = MalformedPattern pe.


(** ** Occurrences of a pattern *)

(** [re.subn] once the rule has been checked. *)
Definition subn_scan (rx : regex) (tpl : list titem) (text : string)
  : string * nat :=
  scan (S (scan_measure text false)) rx tpl 0 text false.

(** Whether a compiled pattern occurs anywhere in a text. *)
Definition found (rx : regex) (text : string) : bool :=
  match search rx 0 text false with
  | Some _ => true
  | None => false
  end.

(** A rule's pattern occurs in a text. *)
Definition pattern_found (r : rule) (text : string) : bool :=
  match compile (fst r) with
  | Ok (rx, _) => found rx text
  | Err _ | Outside => false
  end.

(** ** Literal patterns *)

(** The characters that mean something in a pattern. *)
Definition metachars : list ascii :=
  ["."; "*"; "+"; "?"; "("; ")"; "["; "]"; "{"; "}"; "^"; "$"; "|";
   backslash]%char.

Definition is_meta (c : ascii) : bool := existsb (Ascii.eqb c) metachars.

(** The escaping the specification describes for a literal matcher: a
    backslash before each metacharacter, everything else as it is.  The
    loop never does this; the table is written that way by hand. *)
Fixpoint hand_escape (l : string) : string :=
  match l with
  | EmptyString => EmptyString
  | String c l' =>
      if is_meta c then String backslash (String c (hand_escape l'))
      else String c (hand_escape l')
  end.

(** The literal text a pattern stands for when it uses no construct of
    the dialect: plain characters, and a backslash followed by a
    character that is neither a letter nor a digit. *)
Fixpoint literal_of (pattern : string) : option string :=
  match pattern with
  | EmptyString => Some EmptyString
  | String c rest =>
      if Ascii.eqb c backslash then
        match rest with
        | EmptyString => None
        | String e rest' =>
            if is_ascii_letter e || is_digit e then None
            else option_map (String e) (literal_of rest')
        end
      else if is_meta c then None
      else option_map (String c) (literal_of rest)
  end.

Definition is_literal_pattern (pattern : string) : bool :=
  match literal_of pattern with
  | Some _ => true
  | None => false
  end.

(** The pattern that matches the characters of [l] in turn, then [tail]. *)
Fixpoint lits_then (l : string) (tail : regex) : regex :=
  match l with
  | EmptyString => tail
  | String c l' => Seq (Lit c) (lits_then l' tail)
  end.

(** The pattern a literal text compiles to. *)
Definition lits (l : string) : regex := lits_then l Eps.

(** The same as the list of items the parser collects. *)
Fixpoint lit_items (l : string) : list regex :=
  match l with
  | EmptyString => []
  | String c l' => Lit c :: lit_items l'
  end.

(** Leftmost, non-overlapping replacement of the occurrences of a
    literal text [l] by [rep], with the number of occurrences replaced. *)
Inductive replaced (l rep : string) : string -> string -> nat -> Prop :=
| replaced_end : replaced l rep EmptyString EmptyString 0
| replaced_hit s out n :
    starts_with l s = true ->
    replaced l rep (drop (String.length l) s) out n ->
    replaced l rep s (rep ++ out) (S n)
| replaced_skip a s out n :
    starts_with l (String a s) = false ->
    replaced l rep s out n ->
    replaced l rep (String a s) (String a out) n.

(** ** Replacement strings *)

(** Every backslash is followed by [n] or by a single quote. *)
Fixpoint table_escapes_only (s : string) : bool :=
  match s with
  | EmptyString => true
  | String c rest =>
      if Ascii.eqb c backslash then
        match rest with
        | EmptyString => false
        | String e rest' =>
            (Ascii.eqb e "n" || Ascii.eqb e "'") && table_escapes_only rest'
        end
      else table_escapes_only rest
  end.

(** The replacement string with each backslash-n pair turned into a line
    break and everything else, backslashes included, left as written. *)
Fixpoint emitted (s : string) : string :=
  match s with
  | EmptyString => EmptyString
  | String c rest =>
      if Ascii.eqb c backslash then
        match rest with
        | EmptyString => String c EmptyString
        | String e rest' =>
            if Ascii.eqb e "n" then String newline (emitted rest')
            else String c (String e (emitted rest'))
        end
      else String c (emitted rest)
  end.

(** ** Rules and texts of the scenarios *)

Definition capacity_source : string := "<FormLabel>Capacity</FormLabel>".

Definition capacity_rule : rule :=
  ("<FormLabel>Capacity</FormLabel>",
   "<FormLabel>{t(\'propertyForm.capacity\')}</FormLabel>").



Definition add_unit_rule : rule :=
  ("Add Unit\s*</Button>",
   "{t(\'propertyForm.addUnit\')}\n                      </Button>").

(** The Add Unit pattern, compiled. *)
Definition add_unit_rx : regex :=
  lits_then "Add Unit" (Seq (Star (In false CatSpace)) (lits "</Button>")).

Definition add_unit_occurrence : string :=
  "Add Unit" ++ String newline "</Button>".

(** [s] without its leading whitespace. *)
Fixpoint skip_spaces (s : string) : string :=
  match s with
  | EmptyString => EmptyString
  | String b s' => if is_space b then skip_spaces s' else s
  end.

(** The length of the match of the Add Unit pattern at the start of
    [s], if there is one. *)
Definition add_unit_at (s : string) : option nat :=
  if starts_with "Add Unit" s then
    let s2 := skip_spaces (drop 8 s) in
    if starts_with "</Button>" s2
    then Some (String.length s - String.length s2 + 9)
    else None
  else None.

Fixpoint has_char (c : ascii) (s : string) : bool :=
  match s with
  | EmptyString => false
  | String b s' => Ascii.eqb c b || has_char c s'
  end.

(** The Add Unit template, compiled. *)
Definition add_unit_tpl : list titem :=
  Eval vm_compute in
    match parse_template (snd add_unit_rule) 0 with
    | Ok tpl => tpl
    | Err _ | Outside => []
    end.

(** * The spreadsheet script: rows into columns

    [generate_test_plan_excel.py] fills two dictionaries of columns from
    lists of tuples, one statement [d[key].append(row[index])] per column
    in the body of a loop over the rows, and hands each dictionary to
    [pd.DataFrame], which wants columns of one length. *)

Inductive py_error :=
| KeyError (key : string)
| IndexError (index : nat).

Section Columns.
Variable cell : Type.

(** A dictionary of columns, in insertion order. *)
Definition sheet := list (string * list cell).

(** [d[key]] *)
Fixpoint col_get (key : string) (d : sheet) : option (list cell) :=
  match d with
  | [] => None
  | (k, col) :: d' => if String.eqb key k then Some col else col_get key d'
  end.

(** [d[key].append(c)] for a key that is there. *)
Fixpoint col_append (key : string) (c : cell) (d : sheet) : sheet :=
  match d with
  | [] => []
  | (k, col) :: d' =>
      if String.eqb key k then (k, col ++ [c])%list :: d'
      else (k, col) :: col_append key c d'
  end.

(** One statement [d[key].append(row[index])]: the subscript [d[key]]
    is evaluated before [row[index]]. *)
Definition append_stmt (row : list cell) (d : sheet) (s : string * nat)
  : sheet + py_error :=
  match col_get (fst s) d with
  | None => inr (KeyError (fst s))
  | Some _ =>
      match nth_error row (snd s) with
      | None => inr (IndexError (snd s))
      | Some c => inl (col_append (fst s) c d)
      end
  end.

(** The body of the loop for one row. *)
Fixpoint append_row (stmts : list (string * nat)) (row : list cell)
  (d : sheet) : sheet + py_error :=
  match stmts with
  | [] => inl d
  | s :: rest =>
      match append_stmt row d s with
      | inl d' => append_row rest row d'
      | inr e => inr e
      end
  end.

(** [for row in rows: ...] *)
Fixpoint append_rows (stmts : list (string * nat)) (rows : list (list cell))
  (d : sheet) : sheet + py_error :=
  match rows with
  | [] => inl d
  | row :: rows' =>
      match append_row stmts row d with
      | inl d' => append_rows stmts rows' d'
      | inr e => inr e
      end
  end.

(** The cells of [row] that the statements send to the column [key]. *)
Definition picked (key : string) (stmts : list (string * nat))
  (row : list cell) : list cell :=
  flat_map
    (fun s =>
       if String.eqb key (fst s) then
         match nth_error row (snd s) with
         | Some c => [c]
         | None => []
         end
       else [])
    stmts.

(** What [pd.DataFrame] asks of a dictionary of lists: one length. *)
Definition rectangular (n : nat) (d : sheet) : bool :=
  forallb (fun e => Nat.eqb (List.length (snd e)) n) d.

End Columns.

(** The statements of the loop over [critical_tests] and its dictionary
    [test_cases]. *)
Definition test_case_stmts : list (string * nat) :=
  [("Test ID", 0); ("Module", 1); ("Feature", 2); ("Test Case", 3);
   ("Priority", 4); ("Test Type", 5); ("Est. Time (min)", 6);
   ("Preconditions", 7); ("Status", 8); ("Risk Level", 9)].

Definition empty_columns (cell : Type) (keys : list string) : sheet cell :=
  map (fun k => (k, [])) keys.

Definition test_cases (cell : Type) : sheet cell :=
  empty_columns cell
    ["Test ID"; "Module"; "Feature"; "Test Case"; "Priority"; "Test Type";
     "Est. Time (min)"; "Preconditions"; "Status"; "Risk Level"].

(** The statements of the loop over [regression_modules] and its
    dictionary [regression_data]. *)
Definition regression_stmts : list (string * nat) :=
  [("Module", 0); ("Feature", 1); ("Test Cases", 2); ("Priority", 3);
   ("Automation", 4)].

Definition regression_data : sheet string :=
  empty_columns string
    ["Module"; "Feature"; "Test Cases"; "Priority"; "Automation"].

Definition regression_modules : list (list string) := [
    ["Authentication"; "Login/Logout"; "Basic login, Remember me, Logout"; "P0"; "Yes"];
    ["Authentication"; "Permissions"; "Role verification for key features"; "P0"; "Yes"];
    ["Properties"; "CRUD"; "Create, Edit, View, Delete"; "P0"; "Yes"];
    ["Properties"; "Search"; "Basic search, Filters"; "P1"; "Yes"];
    ["Bookings"; "Create"; "Basic booking, Conflict check"; "P0"; "Yes"];
    ["Bookings"; "Status"; "Status transitions"; "P0"; "Partial"];
    ["Invoices"; "Generate"; "From booking, Manual"; "P0"; "Yes"];
    ["Invoices"; "Payment"; "Record payment, Status update"; "P0"; "Yes"];
    ["Users"; "Management"; "Create, Edit, Suspend"; "P0"; "Yes"];
    ["Users"; "Profile"; "View, Edit own profile"; "P1"; "Yes"];
    ["Notifications"; "Delivery"; "In-app notifications"; "P1"; "Partial"];
    ["Check-in/Out"; "Process"; "Basic check-in/out"; "P0"; "No"];
    ["Reports"; "Generation"; "Key financial reports"; "P1"; "Partial"];
    ["Cache"; "Invalidation"; "Update reflects immediately"; "P0"; "Yes"];
    ["Performance"; "Load Time"; "Page loads within limits"; "P0"; "Yes"]
  ].

(** ** More vocabulary *)

(** Every line of the file ends in a carriage return followed by a line
    feed, and neither character stands anywhere else. *)
Fixpoint dos_newlines (raw : string) : bool :=
  match raw with
  | EmptyString => true
  | String c rest =>
      if Ascii.eqb c carriage_return then
        match rest with
        | String d rest' => Ascii.eqb d newline && dos_newlines rest'
        | EmptyString => false
        end
      else negb (Ascii.eqb c newline) && dos_newlines rest
  end.

(** [d[k]] on the items of a dictionary. *)
Fixpoint dict_get (k : string) (d : list rule) : option string :=
  match d with
  | [] => None
  | (k', v) :: d' => if String.eqb k k' then Some v else dict_get k d'
  end.

(** The value the last entry for [k] of a display gives it. *)
Definition last_value (k : string) (entries : list rule) : option string :=
  fold_left
    (fun acc e => if String.eqb k (fst e) then Some (snd e) else acc)
    entries None.

(** No character of [s] means anything in a pattern. *)
Fixpoint no_meta (s : string) : bool :=
  match s with
  | EmptyString => true
  | String c s' => negb (is_meta c) && no_meta s'
  end.

(** The characters of a string as tokens. *)
Fixpoint plain_tokens (s : string) : list token :=
  match s with
  | EmptyString => []
  | String c s' => TChar c :: plain_tokens s'
  end.

(** The statements can all be run on [row]: each key is in the
    dictionary and each index is within the row. *)
Definition row_fits (cell : Type) (stmts : list (string * nat))
  (d : sheet cell) (row : list cell) : bool :=
  forallb
    (fun s =>
       match col_get (fst s) d with
       | Some _ => Nat.ltb (snd s) (List.length row)
       | None => false
       end)
    stmts.

(** The number of statements that append to the column [key]. *)
Definition count_key (key : string) (stmts : list (string * nat)) : nat :=
  List.length (filter (fun s => String.eqb key (fst s)) stmts).

(** A backslash and the digit [i]: a reference to group [i]. *)
Definition group_ref (i : nat) : string :=
  String backslash (String (ascii_of_nat (48 + i)) EmptyString).

(** ** Tactics *)

(** Case analysis on every test a hypothesis goes through. *)
Ltac split_matches H :=
  repeat match type of H with
         | context [match ?x with _ => _ end] =>
             let E := fresh "E" in destruct x eqn:E
         | context [if ?x then _ else _] =>
             let E := fresh "E" in destruct x eqn:E
         end.

(** * Properties *)

(** ** Strings *)

Lemma app_assoc_s (a b c : string) : (a ++ b) ++ c = a ++ (b ++ c).
Proof. induction a as [|x a IH]; simpl; [reflexivity | now rewrite IH]. Qed.

Lemma length_app (a b : string) :
  String.length (a ++ b) = String.length a + String.length b.
Proof. induction a as [|x a IH]; simpl; [reflexivity | now rewrite IH]. Qed.

Lemma drop_app (a b : string) : drop (String.length a) (a ++ b) = b.
Proof. induction a as [|x a IH]; simpl; [now destruct b | exact IH]. Qed.

Lemma drop_0 (s : string) : drop 0 s = s.
Proof. now destruct s. Qed.

Lemma starts_with_cons a p b s :
  starts_with (String a p) (String b s) = Ascii.eqb a b && starts_with p s.
Proof. reflexivity. Qed.

Lemma starts_with_app (p s : string) : starts_with p (p ++ s) = true.
Proof.
  induction p as [|a p IH]; simpl; [reflexivity |].
  now rewrite Ascii.eqb_refl, IH.
Qed.

Lemma starts_with_split (p s : string) :
  starts_with p s = true -> s = p ++ drop (String.length p) s.
Proof.
  revert s; induction p as [|a p IH]; intros s H; simpl in *.
  - now destruct s.
  - destruct s as [|b s]; [discriminate |].
    apply andb_true_iff in H as [Hab Hp].
    apply Ascii.eqb_eq in Hab; subst b.
    simpl. f_equal. now apply IH.
Qed.

(** ** The matcher only moves forward *)

Lemma advanced_refl pos s : advanced pos s pos s.
Proof. exists EmptyString; simpl; split; [reflexivity | lia]. Qed.

Lemma advanced_trans p0 s0 p1 s1 p2 s2 :
  advanced p0 s0 p1 s1 -> advanced p1 s1 p2 s2 -> advanced p0 s0 p2 s2.
Proof.
  intros (a & -> & ->) (b & -> & ->).
  exists (a ++ b). rewrite app_assoc_s, length_app. split; [reflexivity | lia].
Qed.

Lemma advanced_step pos a s : advanced pos (String a s) (S pos) s.
Proof. exists (String a EmptyString); simpl; split; [reflexivity | lia]. Qed.

Lemma advanced_length pos s pos' s' :
  advanced pos s pos' s' ->
  pos' = pos + (String.length s - String.length s')
  /\ String.length s' <= String.length s
  /\ s' = drop (pos' - pos) s.
Proof.
  intros (pre & -> & ->). rewrite length_app.
  repeat split; try lia.
  replace (pos + String.length pre - pos) with (String.length pre) by lia.
  now rewrite drop_app.
Qed.

Lemma match_char_reaches p pos s caps k x :
  match_char p pos s caps k = Some x -> reaches k pos s x.
Proof.
  unfold match_char. destruct s as [|b s]; [discriminate |].
  destruct (p b); [| discriminate].
  intros H. exists (S pos), s, caps. split; [apply advanced_step | exact H].
Qed.

Lemma or_else_some {A} (x y : option A) v :
  or_else x y = Some v -> x = Some v \/ (x = None /\ y = Some v).
Proof. destruct x; simpl; intros H; [left | right]; auto. Qed.

Section RepeatForward.
Variable body : nat -> string -> captures -> cont -> option (nat * captures).
Hypothesis body_reaches : forall pos s caps k x,
  body pos s caps k = Some x -> reaches k pos s x.

Lemma repeat_loop_reaches k fuel : forall pos s caps x,
  repeat_loop body k fuel pos s caps = Some x -> reaches k pos s x.
Proof.
  induction fuel as [|fuel IH]; intros pos s caps x H; simpl in H.
  - exists pos, s, caps. split; [apply advanced_refl | exact H].
  - apply or_else_some in H as [H | [_ H]].
    + apply body_reaches in H as (pos' & s' & caps' & Hadv & H).
      destruct (Nat.eqb pos' pos).
      * exists pos', s', caps'. split; assumption.
      * apply IH in H as (p2 & s2 & c2 & Hadv2 & H).
        exists p2, s2, c2. split; [| exact H].
        eapply advanced_trans; eassumption.
    + exists pos, s, caps. split; [apply advanced_refl | exact H].
Qed.
End RepeatForward.

Lemma run_reaches r : forall pos s caps k x,
  run r pos s caps k = Some x -> reaches k pos s x.
Proof.
  induction r as [| a | | neg cat | | | r1 IH1 r2 IH2 | r1 IH1 r2 IH2
                  | r1 IH1 | r1 IH1 | r1 IH1 | n r1 IH1];
    intros pos s caps k x H; cbn [run] in H.
  - exists pos, s, caps. split; [apply advanced_refl | exact H].
  - now apply match_char_reaches in H.
  - now apply match_char_reaches in H.
  - now apply match_char_reaches in H.
  - destruct (Nat.eqb pos 0); [| discriminate].
    exists pos, s, caps. split; [apply advanced_refl | exact H].
  - assert (k pos s caps = Some x) as Hk.
    { destruct s as [|b [|c s]]; try discriminate; [exact H |].
      destruct (Ascii.eqb b newline); [exact H | discriminate]. }
    exists pos, s, caps. split; [apply advanced_refl | exact Hk].
  - apply IH1 in H as (p1 & s1 & c1 & Hadv1 & H).
    apply IH2 in H as (p2 & s2 & c2 & Hadv2 & H).
    exists p2, s2, c2. split; [| exact H].
    eapply advanced_trans; eassumption.
  - apply or_else_some in H as [H | [_ H]];
      [eapply IH1 | eapply IH2]; eassumption.
  - eapply repeat_loop_reaches; [| exact H]. exact IH1.
  - apply IH1 in H as (p1 & s1 & c1 & Hadv1 & H).
    eapply repeat_loop_reaches in H; [| exact IH1].
    destruct H as (p2 & s2 & c2 & Hadv2 & H).
    exists p2, s2, c2. split; [| exact H].
    eapply advanced_trans; eassumption.
  - apply or_else_some in H as [H | [_ H]]; [eapply IH1; eassumption |].
    exists pos, s, caps. split; [apply advanced_refl | exact H].
  - apply IH1 in H as (p1 & s1 & c1 & Hadv1 & H).
    exists p1, s1, ((n, take (p1 - pos) s) :: c1). split; assumption.
Qed.

(** A successful attempt ends inside the text, and past its start when
    it had to advance. *)
Lemma match_at_bounds r pos s adv e caps :
  match_at r pos s adv = Some (e, caps) ->
  pos <= e <= pos + String.length s
  /\ (adv = true -> pos < e)
  /\ String.length (drop (e - pos) s) = String.length s - (e - pos).
Proof.
  unfold match_at. intros H.
  apply run_reaches in H as (p1 & s1 & c1 & Hadv & H).
  destruct (adv && Nat.eqb p1 pos) eqn:E; [discriminate |].
  injection H as <- <-.
  destruct (advanced_length Hadv) as (Hp & Hlen & Hdrop).
  rewrite <- Hdrop.
  repeat split; try lia.
  intros ->. simpl in E. apply Nat.eqb_neq in E. lia.
Qed.

(** ** The fuel of the repeat loop and of the scan never runs out *)

Lemma agree_from_later pos s pos' s' k1 k2 :
  advanced pos s pos' s' -> agree_from pos s k1 k2 -> agree_from pos' s' k1 k2.
Proof.
  intros Hadv H p2 s2 c2 Hadv2. apply H.
  eapply advanced_trans; eassumption.
Qed.

Lemma match_char_ext p pos s caps k1 k2 :
  agree_from pos s k1 k2 ->
  match_char p pos s caps k1 = match_char p pos s caps k2.
Proof.
  intros H. unfold match_char. destruct s as [|b s]; [reflexivity |].
  destruct (p b); [| reflexivity]. apply H, advanced_step.
Qed.

Section RepeatFuel.
Variable body : nat -> string -> captures -> cont -> option (nat * captures).
Hypothesis body_ext : forall pos s caps k1 k2,
  agree_from pos s k1 k2 -> body pos s caps k1 = body pos s caps k2.

Lemma repeat_loop_ext fuel : forall pos s caps k1 k2,
  agree_from pos s k1 k2 ->
  repeat_loop body k1 fuel pos s caps = repeat_loop body k2 fuel pos s caps.
Proof.
  induction fuel as [|fuel IH]; intros pos s caps k1 k2 H; simpl.
  - apply H, advanced_refl.
  - rewrite (H pos s caps (advanced_refl pos s)). f_equal.
    apply body_ext. intros p1 s1 c1 Hadv.
    destruct (Nat.eqb p1 pos); [now apply H |].
    apply IH. eapply agree_from_later; eassumption.
Qed.

Lemma repeat_loop_fuel k f1 : forall f2 pos s caps,
  String.length s < f1 -> String.length s < f2 ->
  repeat_loop body k f1 pos s caps = repeat_loop body k f2 pos s caps.
Proof.
  induction f1 as [|f1 IH]; intros f2 pos s caps H1 H2; [lia |].
  destruct f2 as [|f2]; [lia |]. simpl. f_equal.
  apply body_ext. intros p1 s1 c1 Hadv.
  destruct (Nat.eqb p1 pos) eqn:E; [reflexivity |].
  apply Nat.eqb_neq in E.
  destruct (advanced_length Hadv) as (Hp & Hlen & _).
  apply IH; lia.
Qed.
End RepeatFuel.

Lemma run_ext r : forall pos s caps k1 k2,
  agree_from pos s k1 k2 -> run r pos s caps k1 = run r pos s caps k2.
Proof.
  induction r as [| a | | neg cat | | | r1 IH1 r2 IH2 | r1 IH1 r2 IH2
                  | r1 IH1 | r1 IH1 | r1 IH1 | n r1 IH1];
    intros pos s caps k1 k2 H; cbn [run].
  - apply H, advanced_refl.
  - now apply match_char_ext.
  - now apply match_char_ext.
  - now apply match_char_ext.
  - destruct (Nat.eqb pos 0); [apply H, advanced_refl | reflexivity].
  - rewrite (H pos s caps (advanced_refl pos s)). reflexivity.
  - apply IH1. intros p1 s1 c1 Hadv. apply IH2.
    eapply agree_from_later; eassumption.
  - rewrite (IH1 pos s caps k1 k2 H), (IH2 pos s caps k1 k2 H). reflexivity.
  - now apply repeat_loop_ext.
  - apply IH1. intros p1 s1 c1 Hadv. apply repeat_loop_ext; [exact IH1 |].
    eapply agree_from_later; eassumption.
  - rewrite (IH1 pos s caps k1 k2 H), (H pos s caps (advanced_refl pos s)).
    reflexivity.
  - apply IH1. intros p1 s1 c1 Hadv. now apply H.
Qed.

(** More fuel than the text is long changes nothing in a repeat. *)
Lemma star_fuel r k fuel pos s caps :
  String.length s < fuel ->
  repeat_loop (run r) k fuel pos s caps = run (Star r) pos s caps k.
Proof.
  intros H. cbn [run]. apply repeat_loop_fuel; [apply run_ext | exact H | lia].
Qed.

Lemma scan_fuel r tpl f1 : forall f2 pos s adv,
  scan_measure s adv < f1 -> scan_measure s adv < f2 ->
  scan f1 r tpl pos s adv = scan f2 r tpl pos s adv.
Proof.
  induction f1 as [|f1 IH]; intros f2 pos s adv H1 H2; [lia |].
  destruct f2 as [|f2]; [lia |]. simpl.
  destruct (match_at r pos s adv) as [[e caps]|] eqn:M.
  - destruct (match_at_bounds _ _ _ _ M) as (Hb & Hadv & Hlen).
    rewrite (IH f2 e (drop (e - pos) s) (Nat.eqb e pos)); [reflexivity | |].
    all: unfold scan_measure in *; rewrite Hlen.
    all: destruct (Nat.eqb e pos) eqn:E;
      [apply Nat.eqb_eq in E | apply Nat.eqb_neq in E].
    all: destruct adv; try (specialize (Hadv eq_refl)); lia.
  - destruct s as [|a s]; [reflexivity |].
    rewrite (IH f2 (S pos) s false); [reflexivity | |].
    all: unfold scan_measure in *; simpl in *; destruct adv; lia.
Qed.

(** ** One rule *)

Lemma re_subn_check pattern repl text :
  re_subn pattern repl text =
  ('(rx, tpl) <- check_rule (pattern, repl) ;; Ok (subn_scan rx tpl text)).
Proof.
  unfold re_subn, check_rule, subn_scan. simpl.
  destruct (compile pattern) as [[rx g]|e|]; simpl; try reflexivity.
  destruct (parse_template repl g); reflexivity.
Qed.

Lemma re_sub_subn pattern repl text :
  re_sub pattern repl text =
  ('(out, _) <- re_subn pattern repl text ;; Ok out).
Proof. reflexivity. Qed.

Lemma re_subn_error pattern repl text e :
  rule_error (pattern, repl) = Some (Raised e) ->
  re_subn pattern repl text = Err e.
Proof.
  unfold rule_error. rewrite re_subn_check.
  destruct (check_rule (pattern, repl)) as [[rx tpl]|e'|]; try discriminate.
  now intros [= ->].
Qed.

Lemma re_subn_outside pattern repl text :
  rule_error (pattern, repl) = Some NotEmbedded ->
  re_subn pattern repl text = Outside.
Proof.
  unfold rule_error. rewrite re_subn_check.
  destruct (check_rule (pattern, repl)) as [[rx tpl]|e'|]; try discriminate.
  reflexivity.
Qed.

Lemma re_subn_total pattern repl text :
  rule_error (pattern, repl) = None ->
  exists out n, re_subn pattern repl text = Ok (out, n).
Proof.
  unfold rule_error. rewrite re_subn_check.
  destruct (check_rule (pattern, repl)) as [[rx tpl]|e'|]; try discriminate.
  intros _. simpl. destruct (subn_scan rx tpl text) as [out n]. eauto.
Qed.

(** ** The loop and its counting variant agree on the text *)

Lemma apply_counting_text items : forall content,
  apply items content =
  ('(out, _) <- apply_counting items content ;; Ok out).
Proof.
  induction items as [|[p r] rest IH]; intros content; simpl; [reflexivity |].
  rewrite re_sub_subn.
  destruct (re_subn p r content) as [[c1 n]|e|]; simpl; try reflexivity.
  rewrite IH. destruct (apply_counting rest c1) as [[c2 l]|e|]; reflexivity.
Qed.

Lemma apply_counting_length items : forall content out counts,
  apply_counting items content = Ok (out, counts) ->
  List.length counts = List.length items.
Proof.
  induction items as [|[p r] rest IH]; intros content out counts H; simpl in H.
  - now injection H as <- <-.
  - destruct (re_subn p r content) as [[c1 n]|e|]; simpl in H;
      try discriminate.
    destruct (apply_counting rest c1) as [[c2 l]|e|] eqn:E; simpl in H;
      try discriminate.
    injection H as <- <-. simpl. f_equal. eapply IH; eassumption.
Qed.


Lemma apply_first_error items : forall content,
  match first_error items with
  | Some (Raised e) => apply items content = Err e
  | Some NotEmbedded => apply items content = Outside
  | None => exists out, apply items content = Ok out
  end.
Proof.
  induction items as [|[p r] rest IH]; intros content; simpl.
  - eauto.
  - destruct (rule_error (p, r)) as [[e|]|] eqn:E.
    + rewrite re_sub_subn, (re_subn_error _ _ content E). reflexivity.
    + rewrite re_sub_subn, (re_subn_outside _ _ content E). reflexivity.
    + destruct (re_subn_total p r content E) as (c1 & n & H).
      rewrite re_sub_subn, H. simpl. apply IH.
Qed.

(** ** A scan that finds nothing, and one that finds something *)

Lemma search_none_match_at r pos s adv :
  search r pos s adv = None -> match_at r pos s adv = None.
Proof.
  destruct s; simpl; destruct (match_at r pos _ adv) as [[e c]|];
    intros H; try discriminate; reflexivity.
Qed.

Lemma scan_search_none r tpl : forall s pos fuel,
  String.length s < fuel ->
  search r pos s false = None ->
  scan fuel r tpl pos s false = (s, 0).
Proof.
  induction s as [|a s IH]; intros pos fuel Hf H;
    (destruct fuel as [|fuel]; [simpl in Hf; lia |]);
    pose proof (search_none_match_at _ _ _ _ H) as M;
    simpl; rewrite M; [reflexivity |].
  simpl in H. rewrite M in H.
  rewrite (IH (S pos) fuel); [reflexivity | simpl in Hf; lia | exact H].
Qed.

Lemma scan_search_some r tpl : forall s pos adv fuel x,
  String.length s < fuel ->
  search r pos s adv = Some x ->
  1 <= snd (scan fuel r tpl pos s adv).
Proof.
  induction s as [|a s IH]; intros pos adv fuel x Hf H;
    (destruct fuel as [|fuel]; [simpl in Hf; lia |]); simpl in *.
  - destruct (match_at r pos EmptyString adv) as [[e c]|]; [| discriminate].
    destruct (scan fuel r tpl e _ _). simpl. lia.
  - destruct (match_at r pos (String a s) adv) as [[e c]|].
    + destruct (scan fuel r tpl e _ _). simpl. lia.
    + specialize (IH (S pos) false fuel x).
      destruct (scan fuel r tpl (S pos) s false). simpl in *.
      apply IH; [lia | exact H].
Qed.

Lemma subn_scan_not_found rx tpl text :
  found rx text = false -> subn_scan rx tpl text = (text, 0).
Proof.
  unfold found, subn_scan. intros H.
  apply scan_search_none; [unfold scan_measure; lia |].
  destruct (search rx 0 text false); [discriminate | reflexivity].
Qed.

Lemma subn_scan_found rx tpl text :
  found rx text = true -> 1 <= snd (subn_scan rx tpl text).
Proof.
  unfold found, subn_scan. intros H.
  destruct (search rx 0 text false) as [x|] eqn:E; [| discriminate].
  eapply scan_search_some; [unfold scan_measure; lia | exact E].
Qed.

Lemma check_rule_compile r rx tpl :
  check_rule r = Ok (rx, tpl) -> exists g, compile (fst r) = Ok (rx, g).
Proof.
  unfold check_rule. destruct (compile (fst r)) as [[rx' g]|e|]; simpl;
    try discriminate.
  destruct (parse_template (snd r) g); simpl; try discriminate.
  intros [= <- <-]. eauto.
Qed.

Lemma re_subn_not_found p r text :
  rule_error (p, r) = None ->
  pattern_found (p, r) text = false ->
  re_subn p r text = Ok (text, 0).
Proof.
  unfold rule_error, pattern_found. rewrite re_subn_check.
  destruct (check_rule (p, r)) as [[rx tpl]|e|] eqn:E; try discriminate.
  destruct (check_rule_compile _ E) as (g & ->). simpl.
  intros _ H. now rewrite subn_scan_not_found.
Qed.

Lemma re_subn_zero p r text out :
  re_subn p r text = Ok (out, 0) ->
  out = text /\ pattern_found (p, r) text = false.
Proof.
  unfold pattern_found. rewrite re_subn_check.
  destruct (check_rule (p, r)) as [[rx tpl]|e|] eqn:E; try discriminate.
  destruct (check_rule_compile _ E) as (g & ->). simpl.
  intros [= H]. destruct (found rx text) eqn:F.
  - pose proof (subn_scan_found rx tpl text F) as Hn. rewrite H in Hn.
    simpl in Hn. lia.
  - rewrite (subn_scan_not_found rx tpl text F) in H.
    injection H as <-. auto.
Qed.

Lemma apply_ok_first_error items content out :
  apply items content = Ok out -> first_error items = None.
Proof.
  intros H. pose proof (apply_first_error items content) as F.
  destruct (first_error items) as [[e|]|]; [congruence.. | reflexivity].
Qed.

Lemma apply_counting_none_found items : forall text,
  first_error items = None ->
  forallb (fun r => negb (pattern_found r text)) items = true ->
  apply_counting items text = Ok (text, repeat 0 (List.length items)).
Proof.
  induction items as [|[p r] rest IH]; intros text He Hf; simpl in *;
    [reflexivity |].
  destruct (rule_error (p, r)) eqn:E; [discriminate |].
  apply andb_true_iff in Hf as [Hp Hrest].
  apply negb_true_iff in Hp.
  rewrite (re_subn_not_found _ _ text E Hp). simpl.
  rewrite (IH text He Hrest). reflexivity.
Qed.

Lemma apply_counting_all_zero items : forall text out,
  apply_counting items text = Ok (out, repeat 0 (List.length items)) ->
  out = text
  /\ forallb (fun r => negb (pattern_found r text)) items = true.
Proof.
  induction items as [|[p r] rest IH]; intros text out H; simpl in *.
  - injection H as <-. auto.
  - destruct (re_subn p r text) as [[c1 n]|e|] eqn:E; simpl in H;
      try discriminate.
    destruct (apply_counting rest c1) as [[c2 l]|e|] eqn:E2; simpl in H;
      try discriminate.
    injection H as <- -> ->.
    apply re_subn_zero in E as [-> Hp].
    apply IH in E2 as [-> Hrest].
    split; [reflexivity |]. now rewrite Hp, Hrest.
Qed.

(** ** Patterns that stand for a literal text *)

Lemma mkseq_lit_items l : mkseq (lit_items l) = lits l.
Proof.
  unfold lits. induction l as [|c l IH]; simpl; [reflexivity | now rewrite IH].
Qed.

Lemma is_meta_false c :
  is_meta c = false ->
  Ascii.eqb c "." = false /\ Ascii.eqb c "*" = false
  /\ Ascii.eqb c "+" = false /\ Ascii.eqb c "?" = false
  /\ Ascii.eqb c "(" = false /\ Ascii.eqb c ")" = false
  /\ Ascii.eqb c "[" = false /\ Ascii.eqb c "]" = false
  /\ Ascii.eqb c "{" = false /\ Ascii.eqb c "}" = false
  /\ Ascii.eqb c "^" = false /\ Ascii.eqb c "$" = false
  /\ Ascii.eqb c "|" = false /\ Ascii.eqb c backslash = false.
Proof.
  unfold is_meta, metachars. simpl. intros H.
  repeat (apply orb_false_iff in H as [? H]).
  repeat split; assumption.
Qed.

Lemma unbalanced_other c stack :
  Ascii.eqb c ")" = false -> unbalanced (TChar c) stack = false.
Proof. intros H. unfold unbalanced. now destruct stack. Qed.

Lemma parse_loop_plain c ts cur stack g :
  is_meta c = false -> next_bad ts = false ->
  parse_loop (TChar c :: ts) cur stack g
  = parse_loop ts (push_item (Lit c) cur) stack g.
Proof.
  intros Hm Hb. apply is_meta_false in Hm.
  destruct Hm as (H1 & H2 & H3 & H4 & H5 & H6 & H7 & H8 & H9 & H10 & H11
                  & H12 & H13 & H14).
  cbn [parse_loop].
  rewrite (@unbalanced_other c stack H6), Hb, H1, H11, H12, H13, H5, H6, H2, H3,
    H4, H7, H9.
  reflexivity.
Qed.

Lemma pattern_escape_punct e :
  is_ascii_letter e || is_digit e = false -> pattern_escape e = Ok (Lit e).
Proof.
  intros H. apply orb_false_iff in H as [Hl Hd].
  unfold pattern_escape.
  repeat match goal with
  | |- context [Ascii.eqb e ?x] =>
      let E := fresh "E" in
      destruct (Ascii.eqb e x) eqn:E;
      [apply Ascii.eqb_eq in E; subst e; discriminate |]
  end.
  simpl. now rewrite Hd, Hl.
Qed.

Lemma parse_loop_escaped e ts cur stack g :
  is_ascii_letter e || is_digit e = false -> next_bad ts = false ->
  parse_loop (TEsc e :: ts) cur stack g
  = parse_loop ts (push_item (Lit e) cur) stack g.
Proof.
  intros He Hb. cbn [parse_loop]. rewrite Hb, (pattern_escape_punct _ He).
  reflexivity.
Qed.

Lemma literal_of_next_bad p l :
  literal_of p = Some l -> next_bad (tokenize p) = false.
Proof.
  destruct p as [|c p]; [reflexivity |]. simpl.
  destruct (Ascii.eqb c backslash); [| reflexivity].
  destruct p; [discriminate | reflexivity].
Qed.

Lemma parse_loop_literal n : forall p l items,
  String.length p <= n -> literal_of p = Some l ->
  parse_loop (tokenize p) (mkframe 0 [] items) [] 0
  = Ok (mkseq (rev items ++ lit_items l)%list, 0).
Proof.
  induction n as [|n IH]; intros p l items Hn H.
  - destruct p; [| simpl in Hn; lia]. injection H as <-.
    simpl. unfold close_frame. simpl. now rewrite app_nil_r.
  - destruct p as [|c p].
    { injection H as <-. simpl. unfold close_frame. simpl.
      now rewrite app_nil_r. }
    simpl in H. simpl tokenize.
    destruct (Ascii.eqb c backslash) eqn:Ec.
    + destruct p as [|e p]; [discriminate |].
      destruct (is_ascii_letter e || is_digit e) eqn:Ee; [discriminate |].
      destruct (literal_of p) as [l'|] eqn:El; [| discriminate].
      injection H as <-.
      rewrite parse_loop_escaped;
        [| exact Ee | eapply literal_of_next_bad; eassumption].
      unfold push_item. simpl f_items.
      rewrite (IH p l'); [| simpl in Hn; lia | exact El].
      simpl. now rewrite <- app_assoc.
    + destruct (is_meta c) eqn:Em; [discriminate |].
      destruct (literal_of p) as [l'|] eqn:El; [| discriminate].
      injection H as <-.
      rewrite parse_loop_plain;
        [| exact Em | eapply literal_of_next_bad; eassumption].
      unfold push_item. simpl f_items.
      rewrite (IH p l'); [| simpl in Hn; lia | exact El].
      simpl. now rewrite <- app_assoc.
Qed.

(** Such a pattern compiles to the sequence of its characters, with no
    group. *)
Lemma compile_literal p l :
  literal_of p = Some l -> compile p = Ok (lits l, 0).
Proof.
  intros H. unfold compile.
  rewrite (parse_loop_literal (n := String.length p) p [] (le_n _) H).
  simpl. now rewrite mkseq_lit_items.
Qed.

Lemma is_meta_punct c :
  is_meta c = true -> is_ascii_letter c || is_digit c = false.
Proof.
  unfold is_meta, metachars. simpl. intros H.
  repeat (apply orb_true_iff in H as [H | H];
          [apply Ascii.eqb_eq in H; subst c; reflexivity |]).
  discriminate.
Qed.

Lemma literal_of_hand_escape l : literal_of (hand_escape l) = Some l.
Proof.
  induction l as [|c l IH]; simpl; [reflexivity |].
  destruct (is_meta c) eqn:Em; simpl.
  - rewrite (is_meta_punct _ Em), IH. reflexivity.
  - destruct (is_meta_false _ Em) as (_ & _ & _ & _ & _ & _ & _ & _ & _ & _
                                       & _ & _ & _ & Hb).
    rewrite Hb, Em, IH. reflexivity.
Qed.

(** How such a pattern matches: the text in front must spell [l]. *)
Lemma run_lits_then l tail : forall pos s caps k,
  run (lits_then l tail) pos s caps k
  = if starts_with l s
    then run tail (pos + String.length l) (drop (String.length l) s) caps k
    else None.
Proof.
  induction l as [|a l IH]; intros pos s caps k; simpl.
  - rewrite Nat.add_0_r. now destruct s.
  - unfold match_char. destruct s as [|b s]; [reflexivity |].
    destruct (Ascii.eqb a b); simpl; [| reflexivity].
    rewrite IH. now rewrite Nat.add_succ_r.
Qed.

Lemma match_at_lits l pos s adv :
  l <> EmptyString ->
  match_at (lits l) pos s adv
  = if starts_with l s then Some (pos + String.length l, []) else None.
Proof.
  intros Hl. unfold match_at, lits. rewrite run_lits_then.
  destruct (starts_with l s); [| reflexivity]. simpl.
  destruct l as [|a l]; [congruence |]. simpl.
  replace (Nat.eqb (pos + S (String.length l)) pos) with false.
  - now rewrite andb_false_r.
  - symmetry. apply Nat.eqb_neq. lia.
Qed.

Lemma starts_with_length p s :
  starts_with p s = true -> String.length p <= String.length s.
Proof.
  intros H. rewrite (starts_with_split _ _ H), length_app. lia.
Qed.

Lemma drop_length n : forall s,
  String.length (drop n s) = String.length s - n.
Proof.
  induction n as [|n IH]; intros [|a s]; simpl; try reflexivity.
  apply IH.
Qed.

Lemma scan_lits l tpl :
  l <> EmptyString ->
  forall fuel pos s adv out n,
    scan_measure s adv < fuel ->
    scan fuel (lits l) tpl pos s adv = (out, n) ->
    replaced l (expand tpl []) s out n.
Proof.
  intros Hl. induction fuel as [|fuel IH]; intros pos s adv out n Hf H;
    [lia |].
  simpl in H. rewrite (match_at_lits pos s adv Hl) in H.
  destruct (starts_with l s) eqn:Es.
  - replace (pos + String.length l - pos) with (String.length l) in H by lia.
    destruct (scan fuel (lits l) tpl _ _ _) as [out' n'] eqn:E.
    injection H as <- <-.
    apply replaced_hit; [exact Es |].
    eapply IH; [| exact E].
    pose proof (starts_with_length _ _ Es) as Hlen.
    unfold scan_measure in *. rewrite drop_length.
    destruct l as [|a l]; [congruence |]. simpl in *.
    destruct (Nat.eqb (pos + S (String.length l)) pos), adv; lia.
  - destruct s as [|a s].
    + injection H as <- <-. constructor.
    + destruct (scan fuel (lits l) tpl (S pos) s false) as [out' n'] eqn:E.
      injection H as <- <-.
      apply replaced_skip; [exact Es |].
      eapply IH; [| exact E].
      unfold scan_measure in *. simpl in *. destruct adv; lia.
Qed.

(** [re.subn] with a pattern that stands for a literal text. *)
Lemma re_subn_literal p l repl tpl text :
  literal_of p = Some l -> l <> EmptyString ->
  parse_template repl 0 = Ok tpl ->
  exists out n,
    re_subn p repl text = Ok (out, n)
    /\ replaced l (expand tpl []) text out n.
Proof.
  intros Hp Hl Ht. rewrite re_subn_check. unfold check_rule.
  cbn [fst snd]. rewrite (compile_literal _ Hp). cbn [bind]. rewrite Ht.
  cbn [bind].
  destruct (subn_scan (lits l) tpl text) as [out n] eqn:E.
  exists out, n. split; [reflexivity |].
  unfold subn_scan in E.
  eapply scan_lits; [exact Hl | | exact E]. lia.
Qed.

(** A rule for one character whose replacement does not hold that
    character leaves no occurrence of it. *)
Lemma replaced_char_gone c rep t out n :
  has_char c rep = false ->
  replaced (String c EmptyString) rep t out n ->
  has_char c out = false.
Proof.
  intros Hrep. induction 1 as [| s out n Hs _ IH | a s out n Hs _ IH].
  - reflexivity.
  - clear Hs. induction rep as [|b rep IHrep]; simpl in *; [exact IH |].
    apply orb_false_iff in Hrep as [Hb Hrep]. rewrite Hb. now apply IHrep.
  - simpl in *. rewrite andb_true_r in Hs. now rewrite Hs.
Qed.

Lemma search_char_none c : forall t pos,
  has_char c t = false ->
  search (lits (String c EmptyString)) pos t false = None.
Proof.
  induction t as [|b t IH]; intros pos H; cbn [search];
    rewrite match_at_lits by discriminate.
  - reflexivity.
  - simpl in H. apply orb_false_iff in H as [Hb Ht].
    rewrite starts_with_cons, Hb. simpl. now apply IH.
Qed.

Lemma re_subn_char_gone c repl tpl t out n :
  literal_of (String c EmptyString) = Some (String c EmptyString) ->
  parse_template repl 0 = Ok tpl ->
  has_char c (expand tpl []) = false ->
  re_subn (String c EmptyString) repl t = Ok (out, n) ->
  pattern_found (String c EmptyString, repl) out = false.
Proof.
  intros Hl Ht Hc H.
  destruct (@re_subn_literal _ _ repl tpl t Hl) as (out' & n' & H' & R);
    [discriminate | exact Ht |].
  rewrite H in H'. injection H' as <- <-.
  unfold pattern_found. cbn [fst]. rewrite (compile_literal _ Hl).
  unfold found. rewrite search_char_none; [reflexivity |].
  eapply replaced_char_gone; eassumption.
Qed.

(** ** Replacement strings with the two escapes the table uses *)

Lemma table_escapes_next_bad s :
  table_escapes_only s = true -> next_bad (tokenize s) = false.
Proof.
  destruct s as [|c s]; [reflexivity |]. simpl.
  destruct (Ascii.eqb c backslash); [| reflexivity].
  destruct s; [discriminate | reflexivity].
Qed.

Lemma template_loop_table_escapes groups n : forall s,
  String.length s <= n -> table_escapes_only s = true ->
  exists tpl,
    template_loop 0 (tokenize s) groups = Ok tpl
    /\ forall caps, expand tpl caps = emitted s.
Proof.
  induction n as [|n IH]; intros s Hn H.
  - destruct s; [| simpl in Hn; lia]. exists []. split; reflexivity.
  - destruct s as [|c s]; [exists []; split; reflexivity |].
    simpl in H. simpl tokenize. simpl emitted.
    destruct (Ascii.eqb c backslash) eqn:Ec.
    + destruct s as [|e s]; [discriminate |].
      apply andb_true_iff in H as [He Hs].
      destruct (IH s) as (tpl & Ht & Hx); [simpl in Hn; lia | exact Hs |].
      cbn [template_loop]. rewrite (table_escapes_next_bad _ Hs).
      destruct (Ascii.eqb e "n") eqn:En.
      * apply Ascii.eqb_eq in En. subst e. simpl. rewrite Ht. simpl.
        eexists. split; [reflexivity |]. intros caps. simpl. now rewrite Hx.
      * simpl in He. apply Ascii.eqb_eq in He. subst e. simpl.
        rewrite Ht. simpl.
        eexists. split; [reflexivity |]. intros caps. simpl.
        apply Ascii.eqb_eq in Ec. subst c. now rewrite Hx.
    + destruct (IH s) as (tpl & Ht & Hx); [simpl in Hn; lia | exact H |].
      cbn [template_loop]. rewrite (table_escapes_next_bad _ H), Ht. simpl.
      eexists. split; [reflexivity |]. intros caps. simpl. now rewrite Hx.
Qed.

Lemma parse_template_table_escapes s groups :
  table_escapes_only s = true ->
  exists tpl,
    parse_template s groups = Ok tpl
    /\ forall caps, expand tpl caps = emitted s.
Proof.
  intros H. unfold parse_template.
  eapply template_loop_table_escapes; [apply le_n | exact H].
Qed.

(** ** What each kind of error stands for *)

Lemma pattern_escape_failure c e :
  pattern_escape c = Err e -> pattern_failure e.
Proof.
  unfold pattern_escape, pattern_failure. intros H.
  split_matches H; try discriminate; injection H as <-; eauto.
Qed.

Lemma repeat_item_failure q f rest e :
  repeat_item q f rest = Err e -> pattern_failure e.
Proof.
  unfold repeat_item, pattern_failure. intros H.
  split_matches H; try discriminate; injection H as <-; eauto.
Qed.

Lemma parse_loop_failure ts : forall cur stack g e,
  parse_loop ts cur stack g = Err e -> pattern_failure e.
Proof.
  induction ts as [|t ts IH]; intros cur stack g e H; cbn [parse_loop] in H.
  - destruct stack; [discriminate |]. injection H as <-.
    unfold pattern_failure. eauto.
  - destruct (unbalanced t stack);
      [injection H as <-; unfold pattern_failure; eauto |].
    destruct (next_bad ts);
      [injection H as <-; unfold pattern_failure; eauto |].
    destruct t as [c | c |].
    + repeat match type of H with
             | (if ?b then _ else _) = _ => destruct b
             end;
        try (eapply IH; exact H);
        try discriminate.
      * destruct ts as [|[c' | c' |] ts']; try (eapply IH; exact H).
        destruct (Ascii.eqb c' "?") eqn:Eq.
        -- apply Ascii.eqb_eq in Eq. subst c'. discriminate.
        -- assert (parse_loop (TChar c' :: ts')
                     (mkframe (S g) [] []) (cur :: stack) (S g) = Err e)
             as H'.
           { revert H. destruct c' as [[] [] [] [] [] [] [] []];
               try discriminate Eq; exact (fun H => H). }
           eapply IH; exact H'.
      * destruct stack;
          [injection H as <-; unfold pattern_failure; eauto |].
        eapply IH; exact H.
      * destruct (repeat_item QStar cur ts) eqn:R; simpl in H;
          [eapply IH; exact H | injection H as <- | discriminate].
        eapply repeat_item_failure; exact R.
      * destruct (repeat_item QPlus cur ts) eqn:R; simpl in H;
          [eapply IH; exact H | injection H as <- | discriminate].
        eapply repeat_item_failure; exact R.
      * destruct (repeat_item QOpt cur ts) eqn:R; simpl in H;
          [eapply IH; exact H | injection H as <- | discriminate].
        eapply repeat_item_failure; exact R.
    + destruct (pattern_escape c) eqn:P; simpl in H;
        [eapply IH; exact H | injection H as <- | discriminate].
      eapply pattern_escape_failure; exact P.
    + injection H as <-. unfold pattern_failure. eauto.
Qed.

Lemma compile_failure pattern e :
  compile pattern = Err e -> pattern_failure e.
Proof. apply parse_loop_failure. Qed.






(** ** The Add Unit rule *)

Lemma or_else_none_r {A} (x : option A) : or_else x None = x.
Proof. now destruct x. Qed.

Lemma skip_spaces_length s :
  String.length (skip_spaces s) <= String.length s.
Proof.
  induction s as [|b s IH]; simpl; [lia |].
  destruct (is_space b); simpl; lia.
Qed.

(** A greedy run of whitespace in front of a tail that cannot start with
    whitespace takes all the whitespace there is. *)
Lemma repeat_spaces tail k :
  (forall pos b s caps,
     is_space b = true -> run tail pos (String b s) caps k = None) ->
  forall fuel s pos caps,
    String.length s < fuel ->
    repeat_loop (run (In false CatSpace))
      (fun p s' c => run tail p s' c k) fuel pos s caps
    = run tail (pos + (String.length s - String.length (skip_spaces s)))
        (skip_spaces s) caps k.
Proof.
  intros Htail. induction fuel as [|fuel IH]; intros s pos caps Hf; [lia |].
  cbn [repeat_loop run]. unfold match_char.
  destruct s as [|b s].
  - simpl. now rewrite Nat.add_0_r.
  - cbn [xorb in_category skip_spaces]. destruct (is_space b) eqn:Eb.
    + replace (Nat.eqb (S pos) pos) with false
        by (symmetry; apply Nat.eqb_neq; lia).
      rewrite IH by (simpl in Hf; lia).
      rewrite (Htail pos b s caps Eb), or_else_none_r.
      pose proof (skip_spaces_length s). simpl String.length.
      f_equal. lia.
    + simpl. rewrite Nat.sub_diag, Nat.add_0_r. reflexivity.
Qed.

Lemma lits_button_no_space pos b s caps k :
  is_space b = true -> run (lits "</Button>") pos (String b s) caps k = None.
Proof.
  intros Hb. unfold lits. rewrite run_lits_then.
  cbn [starts_with]. destruct (Ascii.eqb "<" b) eqn:E; [| reflexivity].
  apply Ascii.eqb_eq in E. subst b. discriminate.
Qed.

Lemma match_at_add_unit pos s adv :
  match_at add_unit_rx pos s adv
  = match add_unit_at s with
    | Some n => Some (pos + n, [])
    | None => None
    end.
Proof.
  unfold match_at, add_unit_rx, add_unit_at. rewrite run_lits_then.
  destruct (starts_with "Add Unit" s) eqn:E1; [| reflexivity].
  pose proof (starts_with_length _ _ E1) as Hlen. simpl in Hlen.
  cbn [run]. change (String.length "Add Unit") with 8.
  rewrite (@repeat_spaces (lits "</Button>")
             (fun pos' _ caps' =>
                if adv && Nat.eqb pos' pos then None
                else Some (pos', caps')));
    [| intros; now apply lits_button_no_space | lia].
  unfold lits. rewrite run_lits_then.
  destruct (starts_with "</Button>" (skip_spaces (drop 8 s))); [| reflexivity].
  pose proof (skip_spaces_length (drop 8 s)) as Hs.
  rewrite drop_length in *. change (String.length "</Button>") with 9.
  cbn [run].
  match goal with
  | |- context [Nat.eqb ?a pos] =>
      replace (Nat.eqb a pos) with false
        by (symmetry; apply Nat.eqb_neq; lia)
  end.
  rewrite andb_false_r. do 2 f_equal. lia.
Qed.

(** Text that starts with a character the pattern [p] does not contain
    cannot complete a prefix of [p]. *)
Lemma starts_with_app_other p c y : forall x,
  has_char c p = false ->
  starts_with p (x ++ String c y) = starts_with p x.
Proof.
  induction p as [|a p IH]; intros x H; [reflexivity |].
  simpl in H. apply orb_false_iff in H as [Hc Hp].
  destruct x as [|b x]; simpl.
  - rewrite Ascii.eqb_sym, Hc. reflexivity.
  - now rewrite IH.
Qed.

Lemma drop_app_le n : forall x y,
  n <= String.length x -> drop n (x ++ y) = drop n x ++ y.
Proof.
  induction n as [|n IH]; intros x y H.
  - now rewrite !drop_0.
  - destruct x as [|a x]; simpl in *; [lia |]. apply IH. lia.
Qed.

Lemma skip_spaces_app c y : forall z,
  is_space c = false ->
  skip_spaces (z ++ String c y) = skip_spaces z ++ String c y.
Proof.
  intros z Hc. induction z as [|b z IH]; simpl.
  - now rewrite Hc.
  - destruct (is_space b); [exact IH | reflexivity].
Qed.

(** Whether the pattern matches at the start of a text that is not empty
    does not depend on what follows, when what follows starts with a
    capital A. *)
Lemma add_unit_at_app x y :
  x <> EmptyString ->
  add_unit_at (x ++ String "A" y) = add_unit_at x.
Proof.
  intros Hx. unfold add_unit_at.
  assert (starts_with "Add Unit" (x ++ String "A" y)
          = starts_with "Add Unit" x) as E.
  { destruct x as [|b x]; [congruence |].
    change (starts_with (String "A" "dd Unit")
              (String b (x ++ String "A" y))
            = starts_with (String "A" "dd Unit") (String b x)).
    rewrite !starts_with_cons. f_equal.
    now apply starts_with_app_other. }
  rewrite E. destruct (starts_with "Add Unit" x) eqn:E1; [| reflexivity].
  pose proof (starts_with_length _ _ E1) as Hlen. simpl in Hlen.
  rewrite drop_app_le by exact Hlen.
  rewrite skip_spaces_app by reflexivity.
  rewrite (starts_with_app_other "</Button>" "A" y) by reflexivity.
  destruct (starts_with "</Button>" (skip_spaces (drop 8 x)));
    [| reflexivity].
  rewrite !length_app. f_equal. lia.
Qed.

Lemma add_unit_at_occurrence rest :
  add_unit_at (add_unit_occurrence ++ rest) = Some 18.
Proof.
  change (add_unit_occurrence ++ rest)
    with ("Add Unit" ++ String newline ("</Button>" ++ rest)).
  unfold add_unit_at. rewrite starts_with_app.
  replace (drop 8 ("Add Unit" ++ String newline ("</Button>" ++ rest)))
    with (String newline ("</Button>" ++ rest)) by reflexivity.
  change (skip_spaces (String newline ("</Button>" ++ rest)))
    with ("</Button>" ++ rest).
  rewrite starts_with_app, !length_app.
  change (String.length (String newline ("</Button>" ++ rest)))
    with (S (String.length ("</Button>" ++ rest))).
  rewrite length_app.
  change (String.length "Add Unit") with 8.
  change (String.length "</Button>") with 9.
  f_equal. lia.
Qed.

(** ** Steps of the scan *)

Lemma scan_step_none r tpl f pos a s :
  scan_measure (String a s) false < f ->
  match_at r pos (String a s) false = None ->
  scan f r tpl pos (String a s) false
  = (let '(out, n) := scan f r tpl (S pos) s false in (String a out, n)).
Proof.
  intros Hf M. destruct f as [|f]; [lia |].
  cbn [scan]. rewrite M.
  rewrite (@scan_fuel r tpl f (S f) (S pos) s false);
    [reflexivity | |]; unfold scan_measure in *; simpl in *; lia.
Qed.

Lemma scan_step_some r tpl f pos s adv e caps :
  scan_measure s adv < f ->
  match_at r pos s adv = Some (e, caps) ->
  e <> pos ->
  scan f r tpl pos s adv
  = (let '(out, n) := scan f r tpl e (drop (e - pos) s) false in
     (expand tpl caps ++ out, S n)).
Proof.
  intros Hf M He. destruct f as [|f]; [lia |].
  cbn [scan]. rewrite M.
  replace (Nat.eqb e pos) with false by (symmetry; now apply Nat.eqb_neq).
  destruct (match_at_bounds _ _ _ _ M) as (Hb & _ & Hlen).
  rewrite (@scan_fuel r tpl f (S f) e (drop (e - pos) s) false);
    [reflexivity | |]; unfold scan_measure in *; rewrite Hlen;
    destruct adv; lia.
Qed.

Lemma check_add_unit_rule :
  check_rule add_unit_rule = Ok (add_unit_rx, add_unit_tpl).
Proof. vm_compute; reflexivity. Qed.

Lemma search_add_unit_none x : forall pos pos',
  search add_unit_rx pos x false = None ->
  search add_unit_rx pos' x false = None.
Proof.
  induction x as [|b x IH]; intros pos pos' H;
    pose proof (search_none_match_at _ _ _ _ H) as M;
    rewrite match_at_add_unit in M;
    cbn [search] in *; rewrite match_at_add_unit in *.
  - destruct (add_unit_at EmptyString); [discriminate | reflexivity].
  - destruct (add_unit_at (String b x)); [discriminate |].
    eapply IH; exact H.
Qed.

Lemma scan_add_unit_prefix tpl y : forall x pos f,
  scan_measure (x ++ String "A" y) false < f ->
  search add_unit_rx pos x false = None ->
  scan f add_unit_rx tpl pos (x ++ String "A" y) false
  = (let '(out, n) :=
       scan f add_unit_rx tpl (pos + String.length x) (String "A" y) false in
     (x ++ out, n)).
Proof.
  induction x as [|b x IH]; intros pos f Hf H.
  - simpl. rewrite Nat.add_0_r. now destruct (scan f _ _ _ _ _).
  - pose proof (search_none_match_at _ _ _ _ H) as M.
    cbn [search] in H. rewrite M in H.
    rewrite match_at_add_unit in M.
    change (String b x ++ String "A" y) with (String b (x ++ String "A" y)).
    rewrite scan_step_none; [| exact Hf |].
    + rewrite IH; [| unfold scan_measure in *; simpl in *; lia | exact H].
      replace (S pos + String.length x) with (pos + String.length (String b x))
        by (simpl; lia).
      now destruct (scan f _ _ _ _ _).
    + rewrite match_at_add_unit.
      change (String b (x ++ String "A" y)) with (String b x ++ String "A" y).
      rewrite add_unit_at_app by discriminate.
      destruct (add_unit_at (String b x)); [discriminate | reflexivity].
Qed.

Lemma scan_add_unit_occurrence tpl rest pos f :
  scan_measure (add_unit_occurrence ++ rest) false < f ->
  scan f add_unit_rx tpl pos (add_unit_occurrence ++ rest) false
  = (let '(out, n) := scan f add_unit_rx tpl (pos + 18) rest false in
     (expand tpl [] ++ out, S n)).
Proof.
  intros Hf.
  rewrite (@scan_step_some add_unit_rx tpl f pos _ false (pos + 18) []);
    [| exact Hf | | lia].
  - replace (pos + 18 - pos) with (String.length add_unit_occurrence)
      by (simpl; lia).
    now rewrite drop_app.
  - now rewrite match_at_add_unit, add_unit_at_occurrence.
Qed.

Lemma scan_before_occurrence tpl rest x pos f :
  scan_measure (x ++ add_unit_occurrence ++ rest) false < f ->
  search add_unit_rx pos x false = None ->
  scan f add_unit_rx tpl pos (x ++ add_unit_occurrence ++ rest) false
  = (let '(out, n) :=
       scan f add_unit_rx tpl (pos + String.length x)
         (add_unit_occurrence ++ rest) false in
     (x ++ out, n)).
Proof.
  exact (@scan_add_unit_prefix tpl
           (("dd Unit" ++ String newline "</Button>") ++ rest) x pos f).
Qed.

Lemma found_false_search x pos :
  found add_unit_rx x = false -> search add_unit_rx pos x false = None.
Proof.
  unfold found. intros H. apply (@search_add_unit_none x 0).
  destruct (search add_unit_rx 0 x false); [discriminate | reflexivity].
Qed.

(** The scan over a text with two occurrences and nothing else to
    find. *)
Lemma re_subn_add_unit_twice (a b c : string) :
  pattern_found add_unit_rule a = false ->
  pattern_found add_unit_rule b = false ->
  pattern_found add_unit_rule c = false ->
  re_subn (fst add_unit_rule) (snd add_unit_rule)
    (a ++ add_unit_occurrence ++ b ++ add_unit_occurrence ++ c)
  = Ok (a ++ emitted (snd add_unit_rule) ++ b
          ++ emitted (snd add_unit_rule) ++ c, 2).
Proof.
  unfold pattern_found.
  change (compile (fst add_unit_rule)) with (Ok (add_unit_rx, 0)).
  intros Ha Hb Hc.
  rewrite re_subn_check.
  change (check_rule (fst add_unit_rule, snd add_unit_rule))
    with (check_rule add_unit_rule).
  rewrite check_add_unit_rule. cbn [bind]. unfold subn_scan.
  set (f := S (scan_measure _ false)).
  assert (forall s adv,
            String.length s
            <= String.length
                 (a ++ add_unit_occurrence ++ b ++ add_unit_occurrence ++ c) ->
            scan_measure s adv < f) as Hf.
  { intros s adv Hs. unfold f, scan_measure. destruct adv; lia. }
  rewrite scan_before_occurrence;
    [| apply Hf; reflexivity | now apply found_false_search].
  rewrite scan_add_unit_occurrence
    by (apply Hf; rewrite !length_app; lia).
  rewrite scan_before_occurrence;
    [| apply Hf; rewrite !length_app; lia | now apply found_false_search].
  rewrite scan_add_unit_occurrence
    by (apply Hf; rewrite !length_app; lia).
  rewrite scan_search_none;
    [| pose proof (Hf c false) as Hc'; unfold scan_measure in Hc';
       rewrite !length_app in Hc'; lia
     | now apply found_false_search].
  reflexivity.
Qed.

(** ** The claims *)

(** C1: applying the rule whose matcher is the literal text
    <FormLabel>Capacity</FormLabel> to that same text replaces it once.
    The rule is the fourth entry of the table; its replacement string
    holds a backslash before each quote, and the text put in place of the
    match keeps both backslashes, so the output is not the text with bare
    quotes around propertyForm.capacity.  The number of replacements
    is 1.  With the replacement written with bare quotes the same loop
    gives the text with bare quotes. *)
Theorem C1_capacity_rule_output :
  nth_error replacements 3 = Some capacity_rule
  /\ apply_counting [capacity_rule] capacity_source
     = Ok ("<FormLabel>{t(\'propertyForm.capacity\')}</FormLabel>", [1])
  /\ apply replacements capacity_source
     = Ok "<FormLabel>{t(\'propertyForm.capacity\')}</FormLabel>"
  /\ "<FormLabel>{t(\'propertyForm.capacity\')}</FormLabel>"
     <> "<FormLabel>{t('propertyForm.capacity')}</FormLabel>"
  /\ apply_counting
       [(fst capacity_rule,
         "<FormLabel>{t('propertyForm.capacity')}</FormLabel>")]
       capacity_source
     = Ok ("<FormLabel>{t('propertyForm.capacity')}</FormLabel>", [1]).
Proof.
  repeat split; try (vm_compute; reflexivity). discriminate.
Qed.

(** C2, in the form that holds: when the run goes through, the loop has
    made one substitution pass per entry, each with its number of
    replacements (0 included), but what it hands on is the text alone;
    the one figure the script shows is the number of entries of the
    table. *)
Theorem C2_only_the_text_is_returned (items : list rule)
  (text out : string) :
  apply items text = Ok out ->
  (exists counts,
     apply_counting items text = Ok (out, counts)
     /\ List.length counts = List.length items)
  /\ script items text
     = Some (mkoutcome out (Some (List.length items)) None).
Proof.
  intros H. split.
  - rewrite apply_counting_text in H.
    destruct (apply_counting items text) as [[o counts]|e|] eqn:E;
      try discriminate.
    injection H as ->. exists counts. split; [reflexivity |].
    eapply apply_counting_length; eassumption.
  - unfold script. now rewrite H.
Qed.

Lemma C2_only_the_text_is_returned_witness :
  apply [("a", "b")] "a" = Ok "b"
  /\ (exists counts,
        apply_counting [("a", "b")] "a" = Ok ("b", counts)
        /\ List.length counts = 1)
  /\ script [("a", "b")] "a" = Some (mkoutcome "b" (Some 1) None).
Proof.
  split; [vm_compute; reflexivity |].
  apply (@C2_only_the_text_is_returned [("a", "b")] "a" "b").
  vm_compute; reflexivity.
Defined.

(** C2 does not hold as worded: a text the rule rewrites once and a
    text it leaves alone end in the same file and the same message, so
    a rule that matched nothing cannot be told from what the run
    leaves. *)
Lemma C2_counterexample :
  script [("a", "b")] "a" = script [("a", "b")] "b"
  /\ apply_counting [("a", "b")] "a" = Ok ("b", [1])
  /\ apply_counting [("a", "b")] "b" = Ok ("b", [0]).
Proof. repeat split; vm_compute; reflexivity. Qed.



(** C4, in the form that holds: the loop hands every matcher to the
    compiler as it is written and escapes nothing.  A matcher written
    with a backslash before each metacharacter stands for a literal
    text: it compiles to the sequence of that text's characters, an
    attempt succeeds exactly where the text in front spells it, and the
    substitution replaces its occurrences, leftmost first and without
    overlap.  All entries of the table but the two with a whitespace
    class are written that way. *)
Theorem C4_escaped_matcher_is_literal (p l repl text : string)
  (tpl : list titem) :
  literal_of p = Some l ->
  l <> EmptyString ->
  parse_template repl 0 = Ok tpl ->
  compile p = Ok (lits l, 0)
  /\ (forall pos s adv,
        match_at (lits l) pos s adv
        = if starts_with l s then Some (pos + String.length l, [])
          else None)
  /\ (exists out n,
        re_subn p repl text = Ok (out, n)
        /\ replaced l (expand tpl []) text out n)
  /\ (forall l', literal_of (hand_escape l') = Some l')
  /\ map (fun r => is_literal_pattern (fst r)) replacements
     = map (fun r => negb (String.eqb (fst r) "Add Unit\s*</Button>"
                           || String.eqb (fst r) "Remove\s*</Button>"))
           replacements.
Proof.
  intros Hp Hl Ht.
  split; [now apply compile_literal |].
  split; [intros; now apply match_at_lits |].
  split; [now apply re_subn_literal |].
  split; [apply literal_of_hand_escape |].
  vm_compute; reflexivity.
Qed.

Lemma C4_escaped_matcher_is_literal_witness :
  compile "f\(x\)" = Ok (lits "f(x)", 0)
  /\ exists out n,
       re_subn "f\(x\)" "Y" "f(x) fx" = Ok (out, n)
       /\ replaced "f(x)" "Y" "f(x) fx" out n.
Proof.
  destruct (@C4_escaped_matcher_is_literal "f\(x\)" "f(x)" "Y" "f(x) fx"
              [TLit "Y"]) as (H1 & _ & H3 & _);
    [vm_compute; reflexivity | discriminate | vm_compute; reflexivity |].
  split; [exact H1 | exact H3].
Defined.

(** C4 does not hold as worded: the literal text f(x) given as a
    matcher is compiled with the parentheses read as a group, so its
    occurrence in the text is left alone and the text fx is replaced
    instead; written with backslashes the same matcher replaces the
    occurrence. *)
Lemma C4_counterexample :
  re_subn "f(x)" "Y" "f(x) fx" = Ok ("f(x) Y", 1)
  /\ compile "f(x)"
     = Ok (Seq (Lit "f") (Seq (Group 1 (Seq (Lit "x") Eps)) Eps), 1)
  /\ hand_escape "f(x)" = "f\(x\)"
  /\ re_subn "f\(x\)" "Y" "f(x) fx" = Ok ("Y fx", 1).
Proof. repeat split; vm_compute; reflexivity. Qed.



(** C6, in the form that holds: when no entry's matcher occurs anywhere
    in the text the first run produced, a second run returns that text
    unchanged and every count of the second run is zero; and the counts
    of a second run are all zero only then. *)
Theorem C6_second_run (items : list rule) (t t1 : string)
  (c1 : list nat) :
  apply_counting items t = Ok (t1, c1) ->
  (forallb (fun r => negb (pattern_found r t1)) items = true
   <-> apply_counting items t1 = Ok (t1, repeat 0 (List.length items)))
  /\ (forall out,
        apply_counting items t1 = Ok (out, repeat 0 (List.length items)) ->
        out = t1).
Proof.
  intros H.
  assert (first_error items = None) as He.
  { pose proof (apply_counting_text items t) as Ha. rewrite H in Ha.
    eapply apply_ok_first_error; exact Ha. }
  split; [split |].
  - intros Hf. now apply apply_counting_none_found.
  - intros H1. now apply apply_counting_all_zero in H1.
  - intros out H1. now apply apply_counting_all_zero in H1.
Qed.

Lemma C6_second_run_witness :
  apply_counting [("a", "b")] "a" = Ok ("b", [1])
  /\ apply_counting [("a", "b")] "b" = Ok ("b", [0]).
Proof.
  split; [vm_compute; reflexivity |].
  apply (@C6_second_run [("a", "b")] "a" "b" [1]);
    vm_compute; reflexivity.
Defined.

(** C6 does not hold as worded: neither rule's pattern occurs in its own
    replacement, nor in any text its own substitution pass produces,
    yet the second run over the output of the first replaces again and
    gives another text. *)
Lemma C6_counterexample :
  apply_counting [("a", "bb")] "bb" = Ok ("bb", [0])
  /\ apply_counting [("b", "a")] "a" = Ok ("a", [0])
  /\ (forall t out n,
        re_subn "a" "bb" t = Ok (out, n) ->
        pattern_found ("a", "bb") out = false)
  /\ (forall t out n,
        re_subn "b" "a" t = Ok (out, n) ->
        pattern_found ("b", "a") out = false)
  /\ apply_counting [("a", "bb"); ("b", "a")] "a" = Ok ("aa", [1; 2])
  /\ apply_counting [("a", "bb"); ("b", "a")] "aa" = Ok ("aaaa", [2; 4]).
Proof.
  split; [vm_compute; reflexivity |].
  split; [vm_compute; reflexivity |].
  split.
  { intros t out n. apply (@re_subn_char_gone "a" "bb" [TLit "b"; TLit "b"]);
      reflexivity. }
  split.
  { intros t out n. apply (@re_subn_char_gone "b" "a" [TLit "a"]);
      reflexivity. }
  split; vm_compute; reflexivity.
Qed.

(** C7: with an empty rule set the loop returns the text unchanged and
    no count at all, and the script writes the text back as it was. *)
Theorem C7_empty_rule_set (text : string) :
  apply [] text = Ok text
  /\ apply_counting [] text = Ok (text, [])
  /\ apply (dict_display []) text = Ok text
  /\ script [] text = Some (mkoutcome text (Some 0) None).
Proof. repeat split. Qed.

(** C8: in a text that holds the string Add Unit, line break,
    </Button> at two places, and no other match of the rule's pattern
    before, between or after them, the Add Unit rule alone replaces both
    occurrences, each by the same text, and makes 2 replacements. *)
Theorem C8_add_unit_twice (a b c : string) :
  pattern_found add_unit_rule a = false ->
  pattern_found add_unit_rule b = false ->
  pattern_found add_unit_rule c = false ->
  apply_counting [add_unit_rule]
    (a ++ add_unit_occurrence ++ b ++ add_unit_occurrence ++ c)
  = Ok (a ++ emitted (snd add_unit_rule) ++ b
          ++ emitted (snd add_unit_rule) ++ c, [2])
  /\ apply [add_unit_rule]
       (a ++ add_unit_occurrence ++ b ++ add_unit_occurrence ++ c)
     = Ok (a ++ emitted (snd add_unit_rule) ++ b
             ++ emitted (snd add_unit_rule) ++ c).
Proof.
  intros Ha Hb Hc.
  pose proof (re_subn_add_unit_twice a b c Ha Hb Hc) as H.
  assert (apply_counting [add_unit_rule]
            (a ++ add_unit_occurrence ++ b ++ add_unit_occurrence ++ c)
          = Ok (a ++ emitted (snd add_unit_rule) ++ b
                  ++ emitted (snd add_unit_rule) ++ c, [2])) as H2.
  { cbn [apply_counting add_unit_rule]. cbn [add_unit_rule fst snd] in H.
    rewrite H. reflexivity. }
  split; [exact H2 |]. rewrite apply_counting_text, H2. reflexivity.
Qed.

Lemma C8_add_unit_twice_witness :
  apply_counting [add_unit_rule]
    ("<Button>  " ++ add_unit_occurrence ++ " or "
       ++ add_unit_occurrence ++ "!")
  = Ok ("<Button>  " ++ emitted (snd add_unit_rule) ++ " or "
          ++ emitted (snd add_unit_rule) ++ "!", [2]).
Proof.
  apply (@C8_add_unit_twice "<Button>  " " or " "!");
    vm_compute; reflexivity.
Defined.

(** C9: a replacement string is read as a template.  When its only
    escapes are backslash-n and backslash-quote, as in every entry of the
    table, the text put in place of each match is the string with each
    backslash-n turned into one line-break character and each
    backslash-quote kept with its backslash; for the Add Unit entry that
    text differs from the string as written. *)
Theorem C9_template_escapes (repl : string) (groups : nat) :
  table_escapes_only repl = true ->
  (exists tpl,
     parse_template repl groups = Ok tpl
     /\ forall caps, expand tpl caps = emitted repl)
  /\ emitted "\n" = String newline EmptyString
  /\ emitted "\'" = "\'"
  /\ forallb (fun r => table_escapes_only (snd r)) replacements = true
  /\ nth_error replacements 14 = Some add_unit_rule
  /\ String.eqb (emitted (snd add_unit_rule)) (snd add_unit_rule) = false
  /\ re_subn (fst add_unit_rule) (snd add_unit_rule) "Add Unit</Button>"
     = Ok (emitted (snd add_unit_rule), 1).
Proof.
  intros H. split; [now apply parse_template_table_escapes |].
  repeat split; vm_compute; reflexivity.
Qed.

Lemma C9_template_escapes_witness :
  exists tpl,
    parse_template (snd add_unit_rule) 0 = Ok tpl
    /\ forall caps, expand tpl caps = emitted (snd add_unit_rule).
Proof.
  apply (@C9_template_escapes (snd add_unit_rule) 0).
  vm_compute; reflexivity.
Defined.

(** * Further properties *)

(** ** The dictionary of rules *)

Lemma dict_get_set k k' v d :
  dict_get k (dict_set k' v d)
  = if String.eqb k k' then Some v else dict_get k d.
Proof.
  induction d as [|[k0 v0] d IH]; simpl; [reflexivity |].
  destruct (String.eqb_spec k' k0) as [-> | Hk0]; simpl.
  - destruct (String.eqb k k0); reflexivity.
  - rewrite IH. destruct (String.eqb_spec k k0) as [-> | Hk]; [| reflexivity].
    destruct (String.eqb_spec k0 k'); [congruence | reflexivity].
Qed.

Lemma dict_fold_get k entries : forall d,
  dict_get k (fold_left (fun d e => dict_set (fst e) (snd e) d) entries d)
  = fold_left
      (fun acc e => if String.eqb k (fst e) then Some (snd e) else acc)
      entries (dict_get k d).
Proof.
  induction entries as [|[k' v] entries IH]; intros d; simpl; [reflexivity |].
  now rewrite IH, dict_get_set.
Qed.

Lemma dict_set_known k v d :
  List.In k (map fst d) -> map fst (dict_set k v d) = map fst d.
Proof.
  induction d as [|[k0 v0] d IH]; simpl; intros H; [contradiction |].
  destruct (String.eqb_spec k k0) as [-> | Hk]; [reflexivity |].
  simpl. f_equal. apply IH. destruct H; congruence.
Qed.

Lemma dict_set_new k v d :
  ~ List.In k (map fst d) -> dict_set k v d = (d ++ [(k, v)])%list.
Proof.
  induction d as [|[k0 v0] d IH]; simpl; intros H; [reflexivity |].
  destruct (String.eqb_spec k k0) as [-> | Hk]; [tauto |].
  f_equal. apply IH. tauto.
Qed.

Lemma dict_set_nodup k v d :
  NoDup (map fst d) -> NoDup (map fst (dict_set k v d)).
Proof.
  intros H. destruct (in_dec string_dec k (map fst d)) as [Hin | Hout].
  - now rewrite dict_set_known.
  - rewrite dict_set_new, map_app by exact Hout. simpl.
    apply NoDup_app; [exact H | repeat constructor; intros [] |].
    intros x Hx [<- | []]. contradiction.
Qed.

Lemma dict_set_length k v d :
  List.length (dict_set k v d) <= S (List.length d).
Proof.
  induction d as [|[k0 v0] d IH]; simpl; [lia |].
  destruct (String.eqb k k0); simpl; lia.
Qed.

Lemma dict_fold_nodup entries : forall d,
  NoDup (map fst d) ->
  NoDup (map fst
           (fold_left (fun d e => dict_set (fst e) (snd e) d) entries d)).
Proof.
  induction entries as [|[k v] entries IH]; intros d H; simpl; [exact H |].
  apply IH, dict_set_nodup, H.
Qed.

Lemma dict_fold_length entries : forall d,
  List.length (fold_left (fun d e => dict_set (fst e) (snd e) d) entries d)
  <= List.length d + List.length entries.
Proof.
  induction entries as [|[k v] entries IH]; intros d; simpl; [lia |].
  specialize (IH (dict_set k v d)).
  pose proof (dict_set_length k v d). lia.
Qed.

Lemma dict_fold_listed entries : forall d,
  NoDup (map fst (d ++ entries)%list) ->
  fold_left (fun d e => dict_set (fst e) (snd e) d) entries d
  = (d ++ entries)%list.
Proof.
  induction entries as [|[k v] entries IH]; intros d H; simpl.
  - now rewrite app_nil_r.
  - assert (~ List.In k (map fst d)) as Hk.
    { rewrite map_app in H. simpl in H.
      apply NoDup_remove_2 in H. intros Hin. apply H, in_or_app. now left. }
    rewrite (@dict_set_new k v d Hk), IH, <- app_assoc; [reflexivity |].
    now rewrite <- app_assoc.
Qed.

(** X1: whatever entries a dictionary display lists, the dictionary has
    each key once, gives for a key the value of the last entry with that
    key, and has no more items than the display has entries. *)
Theorem X1_dict_display_keeps_last_value (entries : list rule)
  (k : string) :
  NoDup (map fst (dict_display entries))
  /\ dict_get k (dict_display entries) = last_value k entries
  /\ List.length (dict_display entries) <= List.length entries.
Proof.
  unfold dict_display, last_value. split; [| split].
  - apply dict_fold_nodup. constructor.
  - now rewrite dict_fold_get.
  - apply (dict_fold_length entries []).
Qed.

(** X2: a display whose keys are all different is iterated exactly in
    the order it lists them, so its rules run in listed order and the
    script reports the number of entries written down. *)
Theorem X2_distinct_keys_keep_listed_order (entries : list rule)
  (file : string) :
  NoDup (map fst entries) ->
  dict_display entries = entries
  /\ apply (dict_display entries) file = apply entries file
  /\ (forall out,
        apply entries file = Ok out ->
        script (dict_display entries) file
        = Some (mkoutcome out (Some (List.length entries)) None)).
Proof.
  intros H.
  assert (dict_display entries = entries) as E
    by (unfold dict_display; now rewrite dict_fold_listed).
  rewrite E. repeat split. intros out Ho. unfold script. now rewrite Ho.
Qed.

Lemma X2_distinct_keys_keep_listed_order_witness :
  dict_display [("b", "c"); ("a", "b")] = [("b", "c"); ("a", "b")]
  /\ apply (dict_display [("b", "c"); ("a", "b")]) "ab" = Ok "bc".
Proof.
  destruct (@X2_distinct_keys_keep_listed_order
              [("b", "c"); ("a", "b")] "ab") as (H1 & H2 & _).
  - repeat constructor; simpl; intuition discriminate.
  - split; [exact H1 |]. rewrite H2. vm_compute; reflexivity.
Defined.

(** ** Runs of the script *)

(** X3: on the rule table of the script no run raises, whatever the file
    holds: every pattern compiles, every template resolves, the loop
    returns a text, that text is written back and the message counts 59
    translations. *)
Theorem X3_table_never_raises (file : string) :
  exists out,
    apply replacements file = Ok out
    /\ script replacements file = Some (mkoutcome out (Some 59) None).
Proof.
  pose proof (apply_first_error replacements file) as H.
  replace (first_error replacements) with (@None fault) in H
    by (vm_compute; reflexivity).
  destruct H as (out & H). exists out. split; [exact H |].
  unfold script. rewrite H. reflexivity.
Qed.

(** ** The file on disk *)

Lemma read_text_no_cr n : forall raw,
  String.length raw <= n ->
  has_char carriage_return (read_text raw) = false.
Proof.
  induction n as [|n IH]; intros [|c raw] Hn; try reflexivity;
    [simpl in Hn; lia |].
  simpl in Hn. cbn [read_text].
  destruct (Ascii.eqb c carriage_return) eqn:Ec.
  - cbn [has_char]. change (Ascii.eqb carriage_return newline) with false.
    cbn [orb]. destruct raw as [|d raw]; [reflexivity |].
    destruct (Ascii.eqb d newline); apply IH; simpl in *; lia.
  - cbn [has_char]. rewrite Ascii.eqb_sym, Ec. apply IH. lia.
Qed.

Lemma read_text_unix raw :
  has_char carriage_return raw = false -> read_text raw = raw.
Proof.
  induction raw as [|c raw IH]; cbn [has_char read_text]; intros H;
    [reflexivity |].
  apply orb_false_iff in H as [Hc Hr].
  rewrite Ascii.eqb_sym in Hc. rewrite Hc. now rewrite IH.
Qed.

Lemma write_text_posix text : write_text posix_linesep text = text.
Proof.
  induction text as [|c text IH]; cbn [write_text]; [reflexivity |].
  destruct (Ascii.eqb c newline) eqn:Ec.
  - apply Ascii.eqb_eq in Ec. subst c. unfold posix_linesep at 1.
    simpl. now rewrite IH.
  - now rewrite IH.
Qed.

Lemma write_text_windows_dos text :
  has_char carriage_return text = false ->
  dos_newlines (write_text windows_linesep text) = true.
Proof.
  induction text as [|c text IH]; cbn [has_char write_text]; intros H;
    [reflexivity |].
  apply orb_false_iff in H as [Hc Hr].
  destruct (Ascii.eqb c newline) eqn:Ec.
  - unfold windows_linesep at 1. simpl. now apply IH.
  - cbn [dos_newlines]. rewrite Ascii.eqb_sym in Hc. rewrite Hc, Ec.
    simpl. now apply IH.
Qed.

Lemma dos_round_trip n : forall raw,
  String.length raw <= n ->
  dos_newlines raw = true ->
  write_text windows_linesep (read_text raw) = raw.
Proof.
  induction n as [|n IH]; intros [|c raw] Hn H; try reflexivity;
    [simpl in Hn; lia |].
  simpl in Hn. cbn [dos_newlines read_text] in *.
  destruct (Ascii.eqb c carriage_return) eqn:Ec.
  - destruct raw as [|d raw]; [discriminate |].
    apply andb_true_iff in H as [Hd H]. rewrite Hd.
    apply Ascii.eqb_eq in Ec, Hd. subst c d.
    cbn [write_text]. rewrite Ascii.eqb_refl.
    unfold windows_linesep at 1. simpl.
    rewrite IH; [reflexivity | simpl in Hn; lia | exact H].
  - apply andb_true_iff in H as [Hc H]. apply negb_true_iff in Hc.
    cbn [write_text]. rewrite Hc.
    rewrite IH; [reflexivity | lia | exact H].
Qed.

(** X4: when every rule is well formed and no pattern occurs in the text
    read from the file, the script writes that text back and still
    reports every rule of the set as an updated translation.  What is
    written is the file with each line ending turned into [os.linesep]:
    the file is left as it was exactly when it holds no carriage return,
    on POSIX, and exactly when each of its lines ends in a carriage
    return followed by a line feed, on Windows; a file with the other
    line endings is changed although nothing was replaced. *)
Theorem X4_nothing_found_still_reported (linesep : string)
  (items : list rule) (raw : string) :
  first_error items = None ->
  forallb (fun r => negb (pattern_found r (read_text raw))) items = true ->
  script_on_disk linesep items raw
  = Some (mkoutcome (write_text linesep (read_text raw))
                    (Some (List.length items)) None)
  /\ script items (read_text raw)
     = Some (mkoutcome (read_text raw) (Some (List.length items)) None)
  /\ (write_text posix_linesep (read_text raw) = raw
      <-> has_char carriage_return raw = false)
  /\ (write_text windows_linesep (read_text raw) = raw
      <-> dos_newlines raw = true)
  /\ write_text posix_linesep (read_text ("a" ++ windows_linesep ++ "b"))
     = "a" ++ posix_linesep ++ "b"
  /\ write_text windows_linesep (read_text ("a" ++ posix_linesep ++ "b"))
     = "a" ++ windows_linesep ++ "b".
Proof.
  intros He Hf.
  pose proof (apply_counting_none_found items (read_text raw) He Hf) as H.
  pose proof (read_text_no_cr (n := String.length raw) raw (le_n _)) as Hcr.
  split; [| split; [| split; [| split; [| split]]]].
  - unfold script_on_disk. rewrite apply_counting_text, H. reflexivity.
  - unfold script. rewrite apply_counting_text, H. reflexivity.
  - rewrite write_text_posix. split.
    + intros E. now rewrite E in Hcr.
    + apply read_text_unix.
  - split.
    + intros E. rewrite <- E. now apply write_text_windows_dos.
    + apply (dos_round_trip (n := String.length raw)). apply le_n.
  - vm_compute; reflexivity.
  - vm_compute; reflexivity.
Qed.

Lemma X4_nothing_found_still_reported_witness :
  script_on_disk posix_linesep replacements
    ("<div>" ++ windows_linesep ++ "</div>")
  = Some (mkoutcome ("<div>" ++ posix_linesep ++ "</div>") (Some 59) None).
Proof.
  apply (@X4_nothing_found_still_reported posix_linesep replacements
           ("<div>" ++ windows_linesep ++ "</div>")); vm_compute; reflexivity.
Defined.

(** ** Plain patterns and plain replacements *)

Lemma literal_of_plain l : no_meta l = true -> literal_of l = Some l.
Proof.
  induction l as [|c l IH]; simpl; intros H; [reflexivity |].
  apply andb_true_iff in H as [Hc Hl]. apply negb_true_iff in Hc.
  destruct (is_meta_false _ Hc) as (_ & _ & _ & _ & _ & _ & _ & _ & _ & _
                                     & _ & _ & _ & Hb).
  now rewrite Hb, Hc, (IH Hl).
Qed.

Lemma no_backslash_escapes s :
  has_char backslash s = false ->
  table_escapes_only s = true /\ emitted s = s.
Proof.
  induction s as [|c s IH]; cbn [has_char table_escapes_only emitted];
    intros H; [auto |].
  apply orb_false_iff in H as [Hc Hs].
  rewrite Ascii.eqb_sym in Hc. rewrite Hc.
  destruct (IH Hs) as [H1 H2]. now rewrite H2.
Qed.

Lemma check_rule_verbatim p repl rx g :
  has_char backslash repl = false ->
  compile p = Ok (rx, g) ->
  exists tpl,
    check_rule (p, repl) = Ok (rx, tpl)
    /\ forall caps, expand tpl caps = repl.
Proof.
  intros Hr Hc. destruct (no_backslash_escapes _ Hr) as [Ht He].
  destruct (parse_template_table_escapes repl g Ht) as (tpl & Hp & Hx).
  exists tpl. unfold check_rule. cbn [fst snd]. rewrite Hc. cbn [bind].
  rewrite Hp. split; [reflexivity |]. intros caps. now rewrite Hx, He.
Qed.



(** X7: with a pattern that holds no metacharacter and a replacement
    that holds no backslash, the substitution is the replacement of the
    occurrences of the one string by the other, leftmost first and
    without overlap, and counts the occurrences replaced. *)
Theorem X7_plain_rule_replaces_substrings (l repl text : string) :
  l <> EmptyString ->
  no_meta l = true ->
  has_char backslash repl = false ->
  exists out n,
    re_subn l repl text = Ok (out, n) /\ replaced l repl text out n.
Proof.
  intros Hl Hm Hr.
  pose proof (literal_of_plain l Hm) as Hlit.
  destruct (@check_rule_verbatim l repl _ _ Hr (compile_literal _ Hlit))
    as (tpl & Hk & Hx).
  unfold check_rule in Hk. cbn [fst snd] in Hk.
  rewrite (compile_literal _ Hlit) in Hk. cbn [bind] in Hk.
  destruct (parse_template repl 0) as [tpl'|e|] eqn:Hp; try discriminate.
  injection Hk as ->.
  destruct (@re_subn_literal l l repl tpl text Hlit Hl Hp)
    as (out & n & H & R).
  exists out, n. split; [exact H |]. now rewrite Hx in R.
Qed.

Lemma X7_plain_rule_replaces_substrings_witness :
  exists out n,
    re_subn "aa" "b" "aaa" = Ok (out, n) /\ replaced "aa" "b" "aaa" out n.
Proof.
  apply (@X7_plain_rule_replaces_substrings "aa" "b" "aaa");
    [discriminate | reflexivity | reflexivity].
Defined.

(** ** Sizes *)

Lemma replaced_length l rep t out n :
  replaced l rep t out n ->
  String.length out + n * String.length l
  = String.length t + n * String.length rep.
Proof.
  induction 1 as [| s out n Hs _ IH | a s out n Hs _ IH]; simpl.
  - reflexivity.
  - pose proof (starts_with_length _ _ Hs) as Hlen.
    rewrite drop_length in IH. rewrite length_app. lia.
  - lia.
Qed.

(** X8: a rule whose pattern stands for a literal text changes the
    length of the text by the number of replacements times the
    difference between the replacement and the literal, and nothing
    else; the replaced occurrences fit in the text. *)
Theorem X8_literal_rule_length (p l repl text out : string)
  (tpl : list titem) (n : nat) :
  literal_of p = Some l ->
  l <> EmptyString ->
  parse_template repl 0 = Ok tpl ->
  re_subn p repl text = Ok (out, n) ->
  String.length out + n * String.length l
  = String.length text + n * String.length (expand tpl [])
  /\ n * String.length l <= String.length text.
Proof.
  intros Hp Hl Ht H.
  destruct (@re_subn_literal p l repl tpl text Hp Hl Ht)
    as (out' & n' & H' & R).
  rewrite H in H'. injection H' as <- <-.
  pose proof (replaced_length R) as E. split; [exact E |].
  clear - R. induction R as [| s out n Hs _ IH | a s out n Hs _ IH]; simpl.
  - lia.
  - pose proof (starts_with_length _ _ Hs). rewrite drop_length in IH. lia.
  - lia.
Qed.

Lemma X8_literal_rule_length_witness :
  String.length "xbybz" + 2 * String.length "aa"
  = String.length "xaayaaz" + 2 * String.length (expand [TLit "b"] [])
  /\ 2 * String.length "aa" <= String.length "xaayaaz".
Proof.
  apply (@X8_literal_rule_length "aa" "aa" "b" "xaayaaz" "xbybz"
           [TLit "b"] 2);
    [reflexivity | discriminate | reflexivity | vm_compute; reflexivity].
Defined.

Lemma scan_count_bound r tpl f : forall pos s adv out n,
  scan f r tpl pos s adv = (out, n) -> n <= scan_measure s adv.
Proof.
  induction f as [|f IH]; intros pos s adv out n H; simpl in H.
  - injection H as <- <-. lia.
  - destruct (match_at r pos s adv) as [[e caps]|] eqn:M.
    + destruct (match_at_bounds _ _ _ _ M) as (Hb & Hadv & Hlen).
      destruct (scan f r tpl e _ _) as [out' n'] eqn:E.
      injection H as <- <-. apply IH in E.
      unfold scan_measure in *. rewrite Hlen in E.
      destruct (Nat.eqb e pos) eqn:Ee;
        [apply Nat.eqb_eq in Ee | apply Nat.eqb_neq in Ee];
        destruct adv; try (specialize (Hadv eq_refl)); lia.
    + destruct s as [|a s]; [injection H as <- <-; lia |].
      destruct (scan f r tpl (S pos) s false) as [out' n'] eqn:E.
      injection H as <- <-. apply IH in E.
      unfold scan_measure in *. simpl. destruct adv; lia.
Qed.

(** X9: one substitution makes at most twice the length of the text
    plus one replacements, whatever the pattern, a number the pattern
    that is empty or the letter a reaches on the text a. *)
Theorem X9_replacements_are_bounded (p repl text out : string)
  (n : nat) :
  re_subn p repl text = Ok (out, n) ->
  n <= 2 * String.length text + 1
  /\ re_subn "|a" "-" "a" = Ok ("---", 3).
Proof.
  intros H. split; [| vm_compute; reflexivity].
  rewrite re_subn_check in H.
  destruct (check_rule (p, repl)) as [[rx tpl]|e|]; try discriminate.
  injection H as H. unfold subn_scan in H.
  apply scan_count_bound in H. exact H.
Qed.

Lemma X9_replacements_are_bounded_witness :
  3 <= 2 * String.length "a" + 1 /\ re_subn "|a" "-" "a" = Ok ("---", 3).
Proof.
  apply (@X9_replacements_are_bounded "|a" "-" "a" "---" 3).
  vm_compute; reflexivity.
Defined.

(** ** Errors of a replacement and of a pattern *)

Lemma parse_template_group_ref i g :
  1 <= i <= 9 ->
  parse_template (group_ref i) g
  = if Nat.ltb g i then Err (UnresolvedReference i) else Ok [TGroup i].
Proof.
  intros H.
  assert (i = 1 \/ i = 2 \/ i = 3 \/ i = 4 \/ i = 5 \/ i = 6 \/ i = 7
          \/ i = 8 \/ i = 9) as Hi by lia.
  repeat destruct Hi as [-> | Hi]; try subst i;
    cbv -[add_group Nat.ltb]; unfold add_group;
    match goal with |- context [Nat.ltb g ?k] => destruct (Nat.ltb g k) end;
    reflexivity.
Qed.

(** X10: a replacement that is a backslash and one digit from 1 to 9
    names a group: when the pattern has fewer groups the substitution
    fails on every text, matched or not, and when it has that many the
    substitution goes through. *)
Theorem X10_group_reference_needs_its_group (p text : string) (rx : regex)
  (g i : nat) :
  compile p = Ok (rx, g) ->
  1 <= i <= 9 ->
  re_subn p (group_ref i) text
  = if Nat.ltb g i then Err (UnresolvedReference i)
    else Ok (subn_scan rx [TGroup i] text).
Proof.
  intros Hc Hi. unfold re_subn. rewrite Hc. cbn [bind].
  rewrite (parse_template_group_ref g Hi).
  destruct (Nat.ltb g i); reflexivity.
Qed.

Lemma X10_group_reference_needs_its_group_witness :
  re_subn "(a)b" (group_ref 2) "zzz" = Err (UnresolvedReference 2)
  /\ re_subn "(a)b" (group_ref 1) "abab" = Ok ("aa", 2).
Proof.
  split.
  - rewrite (@X10_group_reference_needs_its_group "(a)b" "zzz"
               (Seq (Group 1 (Seq (Lit "a") Eps)) (Seq (Lit "b") Eps)) 1 2);
      [reflexivity | vm_compute; reflexivity | lia].
  - vm_compute; reflexivity.
Defined.

Lemma tokenize_plain s t :
  has_char backslash s = false ->
  tokenize (s ++ t) = (plain_tokens s ++ tokenize t)%list.
Proof.
  induction s as [|c s IH]; cbn [has_char]; intros H; [reflexivity |].
  apply orb_false_iff in H as [Hc Hs]. rewrite Ascii.eqb_sym in Hc.
  change (String c s ++ t) with (String c (s ++ t)).
  cbn [tokenize plain_tokens]. rewrite Hc, (IH Hs). reflexivity.
Qed.

Lemma template_loop_bad_end g s :
  template_loop 0 (plain_tokens s ++ [TBad]) g
  = Err (BadTemplate TplBadEscapeEnd).
Proof.
  induction s as [|c s IH]; [reflexivity |].
  cbn [plain_tokens app template_loop].
  destruct (next_bad (plain_tokens s ++ [TBad])); [reflexivity |].
  now rewrite IH.
Qed.

Lemma parse_loop_bad_end ts : forall cur stack g x,
  parse_loop (ts ++ [TBad]) cur stack g <> Ok x.
Proof.
  induction ts as [|t ts IH]; intros cur stack g x H;
    [discriminate |].
  change ((t :: ts) ++ [TBad])%list with (t :: (ts ++ [TBad]))%list in H.
  cbn [parse_loop] in H.
  destruct (unbalanced t stack); [discriminate |].
  destruct (next_bad (ts ++ [TBad])); [discriminate |].
  destruct t as [c | c |]; [| | discriminate].
  - repeat match type of H with
           | (if ?b then _ else _) = _ => destruct b
           end;
      try (eapply IH; exact H); try discriminate.
    + destruct ts as [|[c' | c' |] ts']; try (eapply IH; exact H).
      change ((TChar c' :: ts') ++ [TBad])%list
        with (TChar c' :: (ts' ++ [TBad]))%list in H.
      destruct (Ascii.eqb c' "?") eqn:Eq.
      * apply Ascii.eqb_eq in Eq. subst c'. discriminate.
      * assert (parse_loop (TChar c' :: (ts' ++ [TBad]))%list
                  (mkframe (S g) [] []) (cur :: stack) (S g) = Ok x) as H'.
        { revert H. destruct c' as [[] [] [] [] [] [] [] []];
            try discriminate Eq; exact (fun H => H). }
        exact (IH _ _ _ _ H').
    + destruct stack; [discriminate |]. eapply IH; exact H.
    + destruct (repeat_item QStar cur (ts ++ [TBad])); simpl in H;
        [eapply IH; exact H | discriminate..].
    + destruct (repeat_item QPlus cur (ts ++ [TBad])); simpl in H;
        [eapply IH; exact H | discriminate..].
    + destruct (repeat_item QOpt cur (ts ++ [TBad])); simpl in H;
        [eapply IH; exact H | discriminate..].
  - destruct (pattern_escape c); simpl in H;
      [eapply IH; exact H | discriminate..].
Qed.

Lemma next_bad_end ts :
  next_bad (ts ++ [TBad]) = false -> next_bad ts = false /\ ts <> [].
Proof.
  destruct ts as [|[c | c |] ts]; simpl; intros H;
    try discriminate; split; try reflexivity; discriminate.
Qed.

Lemma skip_digits_bad_end ts :
  skip_digits (ts ++ [TBad]) = (skip_digits ts ++ [TBad])%list.
Proof.
  induction ts as [|[c | c |] ts IH]; simpl; try reflexivity.
  destruct (is_digit c); [exact IH | reflexivity].
Qed.

Lemma closing_brace_bad_end ts :
  match (ts ++ [TBad])%list with
  | TChar "}" :: _ => true
  | _ => false
  end
  = match ts with
    | TChar "}" :: _ => true
    | _ => false
    end.
Proof. destruct ts as [|[c | c |] ts]; reflexivity. Qed.

Lemma brace_repeat_bad_end ts :
  brace_repeat (ts ++ [TBad]) = brace_repeat ts.
Proof.
  unfold brace_repeat.
  assert (match skip_digits (ts ++ [TBad]) with
          | TChar "," :: r => skip_digits r
          | _ => skip_digits (ts ++ [TBad])
          end
          = (match skip_digits ts with
             | TChar "," :: r => skip_digits r
             | _ => skip_digits ts
             end ++ [TBad])%list) as E.
  { rewrite skip_digits_bad_end.
    destruct (skip_digits ts) as [|[c | c |] r]; try reflexivity.
    cbn [app].
    destruct c as [[] [] [] [] [] [] [] []]; try reflexivity.
    apply skip_digits_bad_end. }
  rewrite E, closing_brace_bad_end.
  destruct ts as [|[c | c |] ts]; reflexivity.
Qed.

Lemma repeat_item_bad_end q f ts :
  repeat_item q f (ts ++ [TBad]) = repeat_item q f ts.
Proof.
  unfold repeat_item. destruct (f_items f) as [|r items]; [reflexivity |].
  destruct ts as [|[c | c |] ts]; reflexivity.
Qed.

(** Where the embedding gives no answer on a pattern with a backslash put
    at its end, it gave none on the pattern. *)
Lemma parse_loop_bad_end_outside ts : forall cur stack g,
  parse_loop (ts ++ [TBad]) cur stack g = Outside ->
  parse_loop ts cur stack g = Outside.
Proof.
  induction ts as [|t ts IH]; intros cur stack g H;
    [discriminate |].
  change ((t :: ts) ++ [TBad])%list with (t :: (ts ++ [TBad]))%list in H.
  cbn [parse_loop] in H |- *.
  destruct (unbalanced t stack); [discriminate |].
  destruct (next_bad (ts ++ [TBad])) eqn:B; [discriminate |].
  apply next_bad_end in B as [B Hne]. rewrite B.
  rewrite brace_repeat_bad_end, !repeat_item_bad_end in H.
  destruct t as [c | c |]; [| | discriminate].
  - repeat match type of H with
           | (if ?b then _ else _) = _ => destruct b
           end;
      try (eapply IH; exact H); try reflexivity.
    + destruct ts as [|[c' | c' |] ts']; try congruence;
        try (eapply IH; exact H).
      change ((TChar c' :: ts') ++ [TBad])%list
        with (TChar c' :: (ts' ++ [TBad]))%list in H.
      destruct (Ascii.eqb c' "?") eqn:Eq.
      * apply Ascii.eqb_eq in Eq. subst c'. reflexivity.
      * assert (parse_loop (TChar c' :: (ts' ++ [TBad]))%list
                  (mkframe (S g) [] []) (cur :: stack) (S g) = Outside)
          as H'.
        { revert H. destruct c' as [[] [] [] [] [] [] [] []];
            try discriminate Eq; exact (fun H => H). }
        apply (IH _ _ _) in H'. revert H'.
        destruct c' as [[] [] [] [] [] [] [] []];
          try discriminate Eq; exact (fun H => H).
    + destruct stack; [discriminate |]. eapply IH; exact H.
    + destruct (repeat_item QStar cur ts); simpl in H |- *;
        [eapply IH; exact H | discriminate | reflexivity].
    + destruct (repeat_item QPlus cur ts); simpl in H |- *;
        [eapply IH; exact H | discriminate | reflexivity].
    + destruct (repeat_item QOpt cur ts); simpl in H |- *;
        [eapply IH; exact H | discriminate | reflexivity].
  - destruct (pattern_escape c); simpl in H |- *;
      [eapply IH; exact H | discriminate | reflexivity].
Qed.

Lemma parse_loop_plain_bad_end s : forall cur stack g,
  no_meta s = true ->
  parse_loop (plain_tokens s ++ [TBad]) cur stack g
  = Err (MalformedPattern BadEscapeEnd).
Proof.
  induction s as [|c s IH]; intros cur stack g H; [reflexivity |].
  simpl in H. apply andb_true_iff in H as [Hc Hs].
  apply negb_true_iff in Hc.
  cbn [plain_tokens app].
  destruct (next_bad (plain_tokens s ++ [TBad])) eqn:B.
  - destruct (is_meta_false _ Hc) as (_ & _ & _ & _ & _ & H6 & _).
    cbn [parse_loop]. now rewrite (@unbalanced_other c stack H6), B.
  - rewrite (@parse_loop_plain c _ cur stack g Hc B). now apply IH.
Qed.

(** X11: a pattern or a replacement that ends in a backslash with no
    other backslash before it is always refused.  The pattern never
    compiles: the compiler raises an error, the one for a backslash at
    the end when no character before it means anything in a pattern,
    and the embedding is without answer only where it was without answer
    on the pattern before the backslash.  The replacement fails on every
    text, under any pattern that does compile. *)
Theorem X11_trailing_backslash_is_refused (s p text : string)
  (rx : regex) (g : nat) :
  has_char backslash s = false ->
  compile p = Ok (rx, g) ->
  match compile (s ++ String backslash EmptyString) with
  | Ok _ => False
  | Err e => pattern_failure e
  | Outside => compile s = Outside
  end
  /\ (no_meta s = true ->
      compile (s ++ String backslash EmptyString)
      = Err (MalformedPattern BadEscapeEnd))
  /\ re_subn p (s ++ String backslash EmptyString) text
     = Err (BadTemplate TplBadEscapeEnd).
Proof.
  intros Hs Hc.
  assert (tokenize (s ++ String backslash EmptyString)
          = (plain_tokens s ++ [TBad])%list) as Ht
    by (rewrite tokenize_plain by exact Hs; reflexivity).
  assert (tokenize s = plain_tokens s) as Hp.
  { pose proof (tokenize_plain s EmptyString Hs) as E.
    rewrite app_nil_r in E. simpl in E.
    replace (s ++ EmptyString) with s in E; [exact E |].
    clear. induction s as [|c s IH]; simpl; congruence. }
  split; [| split].
  - destruct (compile (s ++ String backslash EmptyString)) as [x|e|] eqn:E.
    + unfold compile in E. rewrite Ht in E.
      exact (parse_loop_bad_end _ _ _ _ E).
    + eapply compile_failure; exact E.
    + unfold compile in *. rewrite Ht in E. rewrite Hp.
      now apply parse_loop_bad_end_outside.
  - intros Hm. unfold compile. rewrite Ht.
    now apply parse_loop_plain_bad_end.
  - unfold re_subn. rewrite Hc. cbn [bind]. unfold parse_template.
    rewrite Ht, template_loop_bad_end. reflexivity.
Qed.

Lemma X11_trailing_backslash_is_refused_witness :
  pattern_failure (MalformedPattern BadEscapeEnd)
  /\ compile ("ab" ++ String backslash EmptyString)
     = Err (MalformedPattern BadEscapeEnd)
  /\ re_subn "a" ("ab" ++ String backslash EmptyString) "zzz"
     = Err (BadTemplate TplBadEscapeEnd).
Proof.
  destruct (@X11_trailing_backslash_is_refused "ab" "a" "zzz"
              (Seq (Lit "a") Eps) 0) as (H1 & H2 & H3);
    [vm_compute; reflexivity | vm_compute; reflexivity |].
  split; [exact H1 |]. split; [apply H2; reflexivity | exact H3].
Defined.

(** ** What a substitution leaves alone *)

Lemma search_start r : forall s pos adv b e caps,
  search r pos s adv = Some (b, e, caps) ->
  pos <= b
  /\ (b = pos -> match_at r pos s adv = Some (e, caps)).
Proof.
  induction s as [|a s IH]; intros pos adv b e caps H; cbn [search] in H;
    destruct (match_at r pos _ adv) as [[e' c']|] eqn:M;
    try discriminate.
  - injection H as <- <- <-. auto.
  - injection H as <- <- <-. auto.
  - apply IH in H as [H _]. split; lia.
Qed.

Lemma search_bounds r : forall s pos adv b e caps,
  search r pos s adv = Some (b, e, caps) ->
  pos <= b /\ b <= e /\ e <= pos + String.length s.
Proof.
  induction s as [|a s IH]; intros pos adv b e caps H; cbn [search] in H;
    destruct (match_at r pos _ adv) as [[e' c']|] eqn:M;
    try discriminate.
  - injection H as <- <- <-. apply match_at_bounds in M. lia.
  - injection H as <- <- <-. apply match_at_bounds in M. lia.
  - apply IH in H. simpl. lia.
Qed.

Lemma scan_leftmost r tpl : forall s pos f b e caps,
  String.length s < f ->
  search r pos s false = Some (b, e, caps) ->
  exists out n,
    scan f r tpl pos s false
    = (take (b - pos) s ++ expand tpl caps ++ out, S n).
Proof.
  induction s as [|a s IH]; intros pos f b e caps Hf H;
    (destruct f as [|f]; [simpl in Hf; lia |]);
    cbn [search] in H; cbn [scan];
    destruct (match_at r pos _ false) as [[e' c']|] eqn:M;
    try discriminate.
  - injection H as <- <- <-. rewrite Nat.sub_diag.
    destruct (scan f r tpl e' _ _) as [out n]. exists out, n. reflexivity.
  - injection H as <- <- <-. rewrite Nat.sub_diag.
    destruct (scan f r tpl e' _ _) as [out n]. exists out, n. reflexivity.
  - pose proof (search_start _ _ _ _ H) as [Hb _].
    destruct (IH (S pos) f b e caps) as (out & n & E);
      [simpl in Hf; lia | exact H |].
    rewrite E. exists out, n.
    replace (b - pos) with (S (b - S pos)) by lia. reflexivity.
Qed.

(** X12: when the pattern of a rule occurs in the text, the substitution
    copies the text in front of the leftmost match as it is, puts the
    expanded template in place of that match, and counts at least one
    replacement. *)
Theorem X12_text_before_first_match_is_kept (p repl text : string)
  (rx : regex) (tpl : list titem) (b e : nat) (caps : captures) :
  check_rule (p, repl) = Ok (rx, tpl) ->
  search rx 0 text false = Some (b, e, caps) ->
  b <= e <= String.length text
  /\ exists out n,
       re_subn p repl text
       = Ok (take b text ++ expand tpl caps ++ out, S n).
Proof.
  intros Hk Hs. split.
  - pose proof (search_bounds _ _ _ _ Hs). lia.
  - rewrite re_subn_check, Hk. cbn [bind]. unfold subn_scan.
    destruct (@scan_leftmost rx tpl text 0 (S (scan_measure text false))
                b e caps) as (out & n & E);
      [unfold scan_measure; lia | exact Hs |].
    rewrite E, Nat.sub_0_r. exists out, n. reflexivity.
Qed.

Lemma X12_text_before_first_match_is_kept_witness :
  4 <= 5 <= String.length "xy (a) z"
  /\ exists out n,
       re_subn "(a)" "[\1]" "xy (a) z"
       = Ok (take 4 "xy (a) z" ++ expand [TLit "["; TGroup 1; TLit "]"]
               [(1, "a")] ++ out, S n).
Proof.
  apply (@X12_text_before_first_match_is_kept "(a)" "[\1]" "xy (a) z"
           (Seq (Group 1 (Seq (Lit "a") Eps)) Eps)
           [TLit "["; TGroup 1; TLit "]"] 4 5 [(1, "a")]);
    vm_compute; reflexivity.
Defined.

(** ** Rows into columns *)

Lemma forallb_same {A} (f g : A -> bool) l :
  (forall x, f x = g x) -> forallb f l = forallb g l.
Proof.
  intros H. induction l as [|x l IH]; simpl; [reflexivity |].
  now rewrite H, IH.
Qed.

Section ColumnFacts.
Variable cell : Type.
Implicit Types (d : sheet cell) (row : list cell).

Lemma col_get_append key key' (c : cell) d :
  col_get key (col_append key' c d)
  = if String.eqb key key'
    then option_map (fun col => col ++ [c])%list (col_get key d)
    else col_get key d.
Proof.
  induction d as [|[k col] d IH]; simpl.
  - now destruct (String.eqb key key').
  - destruct (String.eqb_spec key' k) as [-> | Hk']; simpl.
    + destruct (String.eqb key k); reflexivity.
    + rewrite IH. destruct (String.eqb_spec key k) as [-> | Hk];
        [| reflexivity].
      destruct (String.eqb_spec k key'); [congruence | reflexivity].
Qed.

Lemma col_append_keys key (c : cell) d :
  map fst (col_append key c d) = map fst d.
Proof.
  induction d as [|[k col] d IH]; simpl; [reflexivity |].
  destruct (String.eqb key k); simpl; [reflexivity | now rewrite IH].
Qed.

Lemma append_stmt_inl row d s d' :
  append_stmt row d s = inl d' ->
  exists c col,
    col_get (fst s) d = Some col
    /\ nth_error row (snd s) = Some c
    /\ d' = col_append (fst s) c d.
Proof.
  unfold append_stmt.
  destruct (col_get (fst s) d) as [col|]; [| discriminate].
  destruct (nth_error row (snd s)) as [c|]; [| discriminate].
  intros [= <-]. eauto.
Qed.

Lemma append_row_spec stmts row : forall d d',
  append_row stmts row d = inl d' ->
  map fst d' = map fst d
  /\ forall key,
       col_get key d'
       = option_map (fun col => col ++ picked key stmts row)%list
           (col_get key d).
Proof.
  induction stmts as [|s stmts IH]; intros d d' H; simpl in H.
  - injection H as <-. split; [reflexivity |]. intros key.
    unfold picked. simpl. destruct (col_get key d); simpl;
      [now rewrite app_nil_r | reflexivity].
  - destruct (append_stmt row d s) as [d1|e] eqn:E; [| discriminate].
    apply append_stmt_inl in E as (c & col & Hg & Hn & ->).
    apply IH in H as [Hk Hc]. rewrite col_append_keys in Hk.
    split; [exact Hk |]. intros key. rewrite Hc, col_get_append.
    unfold picked. cbn [flat_map]. rewrite Hn.
    destruct (String.eqb key (fst s)); [| reflexivity].
    destruct (col_get key d); simpl; [| reflexivity].
    now rewrite <- app_assoc.
Qed.

Lemma append_rows_spec stmts rows : forall d d',
  append_rows stmts rows d = inl d' ->
  map fst d' = map fst d
  /\ forall key,
       col_get key d'
       = option_map
           (fun col => col ++ flat_map (picked key stmts) rows)%list
           (col_get key d).
Proof.
  induction rows as [|row rows IH]; intros d d' H; simpl in H.
  - injection H as <-. split; [reflexivity |]. intros key. simpl.
    destruct (col_get key d); simpl; [now rewrite app_nil_r | reflexivity].
  - destruct (append_row stmts row d) as [d1|e] eqn:E; [| discriminate].
    apply append_row_spec in E as [Hk1 Hc1].
    apply IH in H as [Hk Hc]. split; [congruence |].
    intros key. rewrite Hc, Hc1. cbn [flat_map].
    destruct (col_get key d); simpl; [| reflexivity].
    now rewrite <- app_assoc.
Qed.

Lemma row_fits_keys stmts row d d' :
  (forall key, col_get key d' = None <-> col_get key d = None) ->
  row_fits stmts d' row = row_fits stmts d row.
Proof.
  intros H. unfold row_fits. apply forallb_same. intros s.
  specialize (H (fst s)).
  destruct (col_get (fst s) d'), (col_get (fst s) d); try reflexivity;
    destruct H as [H1 H2]; try (now discriminate H1);
    try (now discriminate H2).
Qed.

Lemma append_row_fits stmts row : forall d,
  match append_row stmts row d with
  | inl _ => row_fits stmts d row = true
  | inr _ => row_fits stmts d row = false
  end.
Proof.
  induction stmts as [|s stmts IH]; intros d; simpl; [reflexivity |].
  unfold append_stmt.
  destruct (col_get (fst s) d) as [col|] eqn:G; [| reflexivity].
  destruct (nth_error row (snd s)) as [c|] eqn:N.
  - assert (Nat.ltb (snd s) (List.length row) = true) as L
      by (apply Nat.ltb_lt, nth_error_Some; congruence).
    rewrite L. simpl.
    specialize (IH (col_append (fst s) c d)).
    rewrite (@row_fits_keys stmts row d (col_append (fst s) c d)) in IH;
      [exact IH |].
    intros key. rewrite col_get_append.
    destruct (String.eqb_spec key (fst s)) as [-> | _]; [| tauto].
    rewrite G. simpl. split; discriminate.
  - assert (Nat.ltb (snd s) (List.length row) = false) as L
      by (apply Nat.ltb_ge, nth_error_None; exact N).
    now rewrite L.
Qed.

Lemma append_rows_fits stmts rows : forall d,
  match append_rows stmts rows d with
  | inl _ => forallb (row_fits stmts d) rows = true
  | inr _ => forallb (row_fits stmts d) rows = false
  end.
Proof.
  induction rows as [|row rows IH]; intros d; simpl; [reflexivity |].
  pose proof (append_row_fits stmts row d) as F.
  destruct (append_row stmts row d) as [d1|e] eqn:E; rewrite F;
    [| reflexivity].
  simpl. specialize (IH d1).
  assert (forall r, row_fits stmts d1 r = row_fits stmts d r) as K.
  { intros r. apply row_fits_keys. intros key.
    apply append_row_spec in E as [_ Hc]. rewrite Hc.
    destruct (col_get key d); simpl; split; congruence. }
  rewrite (forallb_same _ _ rows K) in IH. exact IH.
Qed.

Lemma picked_length key stmts row d :
  row_fits stmts d row = true ->
  List.length (picked key stmts row) = count_key key stmts.
Proof.
  unfold row_fits, picked, count_key.
  induction stmts as [|s stmts IH]; simpl; intros H; [reflexivity |].
  apply andb_true_iff in H as [Hs H].
  destruct (col_get (fst s) d); [| discriminate].
  apply Nat.ltb_lt, nth_error_Some in Hs.
  rewrite List.length_app, (IH H).
  destruct (String.eqb key (fst s)); simpl; [| reflexivity].
  destruct (nth_error row (snd s)); [reflexivity | congruence].
Qed.

Lemma picked_rows_length key stmts d rows :
  forallb (row_fits stmts d) rows = true ->
  List.length (flat_map (picked key stmts) rows)
  = List.length rows * count_key key stmts.
Proof.
  induction rows as [|row rows IH]; simpl; intros H; [reflexivity |].
  apply andb_true_iff in H as [Hr H].
  now rewrite List.length_app, (picked_length key _ _ _ Hr), (IH H).
Qed.

Lemma col_get_in d : forall key col,
  NoDup (map fst d) -> List.In (key, col) d -> col_get key d = Some col.
Proof.
  induction d as [|[k c] d IH]; intros key col Hn Hin; [contradiction |].
  simpl in *. apply NoDup_cons_iff in Hn as [Hk Hn].
  destruct Hin as [[= -> ->] | Hin]; [now rewrite String.eqb_refl |].
  destruct (String.eqb_spec key k) as [-> | _]; [| now apply IH].
  exfalso. apply Hk. change k with (fst (k, col)). now apply in_map.
Qed.

End ColumnFacts.

Lemma col_get_some_in (cell : Type) (d : sheet cell) : forall key col,
  col_get key d = Some col -> List.In (key, col) d.
Proof.
  induction d as [|[k c] d IH]; intros key col H; simpl in *;
    [discriminate |].
  destruct (String.eqb_spec key k) as [-> | _].
  - injection H as ->. now left.
  - right. now apply IH.
Qed.

Lemma columns_grow_alike (cell : Type) stmts rows (d d' : sheet cell) n :
  append_rows stmts rows d = inl d' ->
  NoDup (map fst d) ->
  forallb
    (fun e =>
       Nat.eqb (List.length (snd e)
                + List.length rows * count_key (fst e) stmts) n)
    d = true ->
  rectangular n d' = true.
Proof.
  intros H Hn Hd. unfold rectangular. apply forallb_forall.
  intros [k col'] Hin. cbn [snd].
  pose proof (append_rows_fits stmts rows d) as F. rewrite H in F.
  apply (@append_rows_spec _ stmts rows d d') in H as [Hk Hc].
  rewrite <- Hk in Hn. pose proof (@col_get_in _ d' k col' Hn Hin) as G.
  rewrite Hc in G. destruct (col_get k d) as [col|] eqn:Gd; [| discriminate].
  injection G as <-. apply col_get_some_in in Gd.
  rewrite forallb_forall in Hd. specialize (Hd _ Gd). cbn [fst snd] in Hd.
  now rewrite List.length_app, (@picked_rows_length _ k stmts d rows F).
Qed.

(** X13: when the loop over the rows goes through, the dictionary has
    the keys it had, in the same order, and each column holds what it
    held followed, row after row, by the cells its statements take from
    the row; in both loops of the script a column takes from each row
    the one cell at its own index. *)
Theorem X13_columns_hold_the_rows_in_order (cell : Type)
  (stmts : list (string * nat)) (rows : list (list cell))
  (d d' : sheet cell) :
  append_rows stmts rows d = inl d' ->
  map fst d' = map fst d
  /\ (forall key,
        col_get key d'
        = option_map
            (fun col => col ++ flat_map (picked key stmts) rows)%list
            (col_get key d))
  /\ Forall
       (fun s =>
          forall row : list cell,
            picked (fst s) test_case_stmts row
            = match nth_error row (snd s) with
              | Some c => [c]
              | None => []
              end)
       test_case_stmts
  /\ Forall
       (fun s =>
          forall row : list cell,
            picked (fst s) regression_stmts row
            = match nth_error row (snd s) with
              | Some c => [c]
              | None => []
              end)
       regression_stmts.
Proof.
  intros H. apply append_rows_spec in H as [Hk Hc].
  split; [exact Hk |]. split; [exact Hc |].
  split; repeat constructor; intros row; unfold picked;
    cbn -[nth_error]; destruct (nth_error row _); reflexivity.
Qed.

Lemma X13_columns_hold_the_rows_in_order_witness :
  exists d',
    append_rows regression_stmts regression_modules regression_data = inl d'
    /\ map fst d'
       = ["Module"; "Feature"; "Test Cases"; "Priority"; "Automation"]
    /\ col_get "Automation" d'
       = Some ["Yes"; "Yes"; "Yes"; "Yes"; "Yes"; "Partial"; "Yes"; "Yes";
               "Yes"; "Yes"; "Partial"; "No"; "Partial"; "Yes"; "Yes"].
Proof.
  destruct (append_rows regression_stmts regression_modules regression_data)
    as [d'|e] eqn:E; [| vm_compute in E; discriminate].
  exists d'. split; [reflexivity |].
  destruct (X13_columns_hold_the_rows_in_order _ _ _ E) as (Hk & Hc & _).
  split; [exact Hk |]. rewrite Hc. vm_compute; reflexivity.
Defined.

(** X14: the loop over the rows goes through exactly when every row
    fits the statements, that is, each statement's key is in the
    dictionary and each statement's index is inside the row; a missing
    key is reported before a short row. *)
Theorem X14_rows_must_fit (cell : Type) (stmts : list (string * nat))
  (rows : list (list cell)) (d : sheet cell) :
  match append_rows stmts rows d with
  | inl _ => forallb (row_fits stmts d) rows = true
  | inr _ => forallb (row_fits stmts d) rows = false
  end
  /\ (forall key i row,
        col_get key d = None ->
        append_rows ((key, i) :: stmts) (row :: rows) d
        = inr (KeyError key))
  /\ (forall key i row col,
        col_get key d = Some col ->
        List.length row <= i ->
        append_rows ((key, i) :: stmts) (row :: rows) d
        = inr (IndexError i)).
Proof.
  split; [apply append_rows_fits |]. split.
  - intros key i row H. simpl. unfold append_stmt. simpl. now rewrite H.
  - intros key i row col H Hi. simpl. unfold append_stmt. simpl.
    rewrite H. apply nth_error_None in Hi. now rewrite Hi.
Qed.

Lemma test_cases_grow_alike (cell : Type) (rows : list (list cell)) :
  forallb
    (fun e =>
       Nat.eqb (List.length (snd e)
                + List.length rows * count_key (fst e) test_case_stmts)
               (List.length rows))
    (test_cases cell) = true.
Proof.
  unfold test_cases, empty_columns, count_key. simpl.
  now rewrite Nat.mul_1_r, Nat.eqb_refl.
Qed.

Lemma regression_data_grow_alike (rows : list (list string)) :
  forallb
    (fun e =>
       Nat.eqb (List.length (snd e)
                + List.length rows * count_key (fst e) regression_stmts)
               (List.length rows))
    regression_data = true.
Proof.
  unfold regression_data, empty_columns, count_key. simpl.
  now rewrite Nat.mul_1_r, Nat.eqb_refl.
Qed.

Lemma test_cases_keys_distinct (cell : Type) :
  NoDup (map fst (test_cases cell)).
Proof.
  repeat constructor; simpl; intuition discriminate.
Qed.

Lemma regression_data_keys_distinct : NoDup (map fst regression_data).
Proof.
  repeat constructor; simpl; intuition discriminate.
Qed.

(** X15: a dictionary with distinct keys whose columns, each grown by
    one cell per row and statement naming it, would all reach one
    length does reach it when the loop goes through; so both
    dictionaries of the script, filled from rows however many, reach
    [pd.DataFrame] with every column as long as there are rows. *)
Theorem X15_filled_columns_have_one_length (cell : Type)
  (stmts : list (string * nat)) (rows : list (list cell))
  (d d' : sheet cell) (n : nat) :
  append_rows stmts rows d = inl d' ->
  NoDup (map fst d) ->
  forallb
    (fun e =>
       Nat.eqb (List.length (snd e)
                + List.length rows * count_key (fst e) stmts) n)
    d = true ->
  rectangular n d' = true
  /\ (forall tests filled,
        append_rows test_case_stmts tests (test_cases cell) = inl filled ->
        rectangular (List.length tests) filled = true)
  /\ (forall modules filled,
        append_rows regression_stmts modules regression_data = inl filled ->
        rectangular (List.length modules) filled = true).
Proof.
  intros H Hn Hd. split; [eapply columns_grow_alike; eassumption |].
  split; intros rs filled Hf.
  - eapply columns_grow_alike;
      [exact Hf | apply test_cases_keys_distinct
       | apply test_cases_grow_alike].
  - eapply columns_grow_alike;
      [exact Hf | apply regression_data_keys_distinct
       | apply regression_data_grow_alike].
Qed.

Lemma X15_filled_columns_have_one_length_witness :
  exists d',
    append_rows regression_stmts regression_modules regression_data = inl d'
    /\ rectangular 15 d' = true.
Proof.
  destruct (append_rows regression_stmts regression_modules regression_data)
    as [d'|e] eqn:E; [| vm_compute in E; discriminate].
  exists d'. split; [reflexivity |].
  apply (@X15_filled_columns_have_one_length string regression_stmts
           regression_modules regression_data d' 15 E);
    [apply regression_data_keys_distinct | vm_compute; reflexivity].
Defined.
